(** * SixtyNine: exact rationals and the minimal-operation enumeration

    A shallow embedding of the JavaScript sources of the repository:
    the class [Exact] (reduced fractions over BigInt), the helper
    [BigIntLog10], the expression classes [Atom2] and [Expression2],
    [compositionPair] and the search [getExpression_version3].

    Conventions of the embedding.
    - A BigInt is a [Z]; BigInt [/] is [Z.quot] and [%] is [Z.rem] (both
      truncate towards zero); dividing by [0n] raises a RangeError.
    - A raised exception is the outcome [Thrown] of an arithmetic method
      and [None] for the search.
    - The objects [{error: true}] and [{overflow: true}] are the outcomes
      [ErrorFlag] and [OverflowFlag]; [{float: true}] is [FloatFlag].
    - A [while] loop is a structural recursion on a fuel computed from its
      argument; for each one a lemma shows that the fuel is never used up.
    - A plain JavaScript object used as a table is an association list in
      the order [for ... in] and [Object.keys] enumerate it. *)

From Stdlib Require Import ZArith NArith List String Ascii Bool Lia Znumtheory.
Import ListNotations.

Local Open Scope Z_scope.

(** ** The class [Exact] *)

Record Exact : Type := mkExact { num : Z; den : Z; root : Z }.

(** [new Exact(N)] *)
Definition newExact (N : Z) : Exact := {| num := N; den := 1; root := 1 |}.

(** What a call of an arithmetic method yields. *)
Inductive Outcome : Type :=
| Value (e : Exact)
| ErrorFlag
| OverflowFlag
| Thrown.

(** What the getter [display] yields. *)
Inductive Display : Type :=
| FloatFlag
| Str (s : string).

Module Exact.

(** [get copy] *)
Definition copy (this : Exact) : Exact :=
  {| num := num this; den := den this; root := root this |}.

(** [static Abs(X)] *)
Definition Abs (X : Z) : Z := if X <? 0 then - X else X.

(** The body of [while (true)] in [static gcd]; [None] is fuel used up. *)
Fixpoint gcd_loop (fuel : nat) (X Y : Z) : option Z :=
  match fuel with
  | O => None
  | S fuel' =>
      if Y =? 0 then Some X
      else
        let X1 := Z.rem X Y in
        if X1 =? 0 then Some Y
        else
          let Y1 := Z.rem Y X1 in
          gcd_loop fuel' X1 Y1
  end.

Definition gcd_fuel (Y : Z) : nat := Z.to_nat (Z.log2 (Z.abs Y)) + 2.

(** [static gcd(X, Y)].  The fuel is never used up ([gcd_returns] below),
    so the last branch is never taken. *)
Definition gcd (X Y : Z) : Z :=
  let '(X0, Y0) := if Y >? X then (Y, X) else (X, Y) in
  match gcd_loop (gcd_fuel Y0) X0 Y0 with
  | Some g => g
  | None => 0
  end.

(** [get inverse] *)
Definition inverse (this : Exact) : Exact :=
  let Factor := if num this <? 0 then -1 else 1 in
  {| num := Factor * den this; den := Abs (num this); root := root this |}.

(** [plus(that)] *)
Definition plus (this that : Exact) : Outcome :=
  let Num := num this * den that + den this * num that in
  let Den := den this * den that in
  let GCD := gcd (Abs Num) Den in
  if GCD =? 0 then Thrown
  else Value {| num := Z.quot Num GCD; den := Z.quot Den GCD; root := 1 |}.

(** [minus(that)] *)
Definition minus (this that : Exact) : Outcome :=
  let Num := num this * den that - den this * num that in
  let Den := den this * den that in
  let GCD := gcd (Abs Num) Den in
  if GCD =? 0 then Thrown
  else Value {| num := Z.quot Num GCD; den := Z.quot Den GCD; root := 1 |}.

(** [times(that)]: the only method that tests [GCD === 0n] itself, so it
    always returns an [Exact]. *)
Definition times (this that : Exact) : Exact :=
  let Num := num this * num that in
  let Den := den this * den that in
  let GCD := gcd (Abs Num) Den in
  if GCD =? 0 then newExact 0
  else {| num := Z.quot Num GCD; den := Z.quot Den GCD; root := 1 |}.

(** [over(that)] *)
Definition over (this that : Exact) : Outcome :=
  if num that =? 0 then ErrorFlag
  else
    let Num := num this * den that in
    let Den := den this * num that in
    let AbsDen := Abs Den in
    let GCD := gcd (Abs Num) AbsDen in
    let Factor := if Den <? 0 then -1 else 1 in
    if GCD =? 0 then Thrown
    else Value {| num := Z.quot (Factor * Num) GCD;
                  den := Z.quot AbsDen GCD;
                  root := 1 |}.

End Exact.

(** [BigIntLog10]: the number of truncating divisions by ten until the
    magnitude is at most ten. *)
Fixpoint BigIntLog10_loop (fuel : nat) (bigInt counter : Z) : Z :=
  match fuel with
  | O => counter
  | S fuel' =>
      if Exact.Abs bigInt >? 10
      then BigIntLog10_loop fuel' (Z.quot bigInt 10) (counter + 1)
      else counter
  end.

Definition log10_fuel (bigInt : Z) : nat := S (Z.to_nat (Z.log2 (Z.abs bigInt))).

Definition BigIntLog10 (bigInt : Z) : Z :=
  BigIntLog10_loop (log10_fuel bigInt) bigInt 0.

(** The last method of the class, [toThe].  It calls [BigIntLog10], which
    the source declares after the class. *)
Module ExactPow.

(** The guard evaluated after each multiplication in [toThe]. *)
Definition guard (Res : Exact) : bool :=
  Z.abs (BigIntLog10 (num Res) - BigIntLog10 (den Res)) >? 20.

(** The [for] loop of [toThe], [n] iterations left; [None] is the
    return of [{overflow: true}] from inside the loop. *)
Fixpoint powLoop (n : nat) (This Res : Exact) : option Exact :=
  match n with
  | O => Some Res
  | S n' =>
      let Res1 := Exact.times Res This in
      if guard Res1 then None else powLoop n' This Res1
  end.

(** [toThe(that)] *)
Definition toThe (this that : Exact) : Outcome :=
  if negb (root that =? 1) then ErrorFlag
  else
    let Root := den that in
    let This := if num that <? 0 then Exact.inverse this else Exact.copy this in
    let Res := Exact.copy This in
    let NumAbs := Exact.Abs (num that) in
    if NumAbs >? 100 then OverflowFlag
    else
      match powLoop (Z.to_nat (NumAbs - 1)) This Res with
      | None => OverflowFlag
      | Some Res1 =>
          let GCD := Exact.gcd (Exact.Abs (num Res1)) (den Res1) in
          if GCD =? 0 then Thrown
          else Value {| num := Z.quot (num Res1) GCD;
                        den := Z.quot (den Res1) GCD;
                        root := Root |}
      end.

End ExactPow.

(** ** Decimal rendering: the getter [display] *)

Local Open Scope string_scope.

(** [Digit.indexOf(Mod).toString()] for the array [Digit] of [0n..9n]:
    [indexOf] gives [-1] for a value that is not in it. *)
Definition digitString (Mod : Z) : string :=
  match Mod with
  | 0%Z => "0" | 1%Z => "1" | 2%Z => "2" | 3%Z => "3" | 4%Z => "4"
  | 5%Z => "5" | 6%Z => "6" | 7%Z => "7" | 8%Z => "8" | 9%Z => "9"
  | _ => "-1"
  end.

Fixpoint displayLoop (fuel : nat) (Int : Z) (returnString : string) : string :=
  match fuel with
  | O => returnString
  | S fuel' =>
      if (Int >? 0)%Z
      then displayLoop fuel' (Z.quot Int 10)
             (digitString (Z.rem Int 10) ++ returnString)
      else returnString
  end.

(** The part of [display] after the test for a non-integer. *)
Definition displayInt (n : Z) : string :=
  if (n =? 0)%Z then "0"
  else
    let sign := if (n <? 0)%Z then "-" else "" in
    let Int := if (n <? 0)%Z then Exact.Abs n else n in
    sign ++ displayLoop (log10_fuel Int) Int "".

Definition display (this : Exact) : Display :=
  if negb (den this =? 1)%Z || negb (root this =? 1)%Z then FloatFlag
  else Str (displayInt (num this)).

Local Close Scope string_scope.

(** ** Expression trees: the classes [Atom2] and [Expression2] *)

(** The keys of [Expression2.Operations]. *)
Inductive Operation : Type := OpPlus | OpMinus | OpTimes | OpOver | OpToThe.

Definition operationSymbol (op : Operation) : string :=
  match op with
  | OpPlus => "+" | OpMinus => "-" | OpTimes => "*" | OpOver => "/"
  | OpToThe => "**"
  end.

Definition isSumOrMul (op : Operation) : bool :=
  match op with
  | OpPlus | OpTimes => true
  | _ => false
  end.

Inductive Term : Type :=
| Atom2 (value : Z)
| Expression2 (leftTerm : Term) (operation : Operation) (rightTerm : Term).

(** [Math.floor(Math.log10(abs))] for an integer [abs >= 1], computed on
    integers.  The source computes it on doubles: the two agree wherever
    the double logarithm has the floor of the exact one, as on the
    magnitudes 6, 9 and 69 of the atoms (0, 0 and 1); they part where
    the double logarithm rounds up to an integer, which it does from
    magnitudes around 10^15 on. *)
Fixpoint floorLog10_loop (fuel : nat) (n acc : Z) : Z :=
  match fuel with
  | O => acc
  | S fuel' => if n <? 10 then acc else floorLog10_loop fuel' (n / 10) (acc + 1)
  end.

Definition floorLog10 (n : Z) : Z := floorLog10_loop (log10_fuel n) n 0.

(** The field [start]: set by the constructor of [Atom2] from the value,
    copied from the left operand by the constructor of [Expression2].
    For the value 0 the logarithm is -Infinity, the power of ten 0 and
    the quotient 0 / 0, so the field is NaN.  The field is only ever
    compared, with [!==] to an [end] and with [===] to 6, and NaN differs
    from every number: it is written -1 here, which differs from every
    [end] (a remainder modulo 10) and from 6. *)
Fixpoint start (t : Term) : Z :=
  match t with
  | Atom2 value =>
      let abs := Z.abs value in
      if abs =? 0 then -1
      else
        let pow := floorLog10 abs in
        abs / 10 ^ pow
  | Expression2 leftTerm _ _ => start leftTerm
  end.

(** The field [end]. *)
Fixpoint end_ (t : Term) : Z :=
  match t with
  | Atom2 value => Z.abs value mod 10
  | Expression2 _ _ rightTerm => end_ rightTerm
  end.

(** [this.start === 6 && this.end === 9] *)
Definition isComplete (t : Term) : bool := (start t =? 6) && (end_ t =? 9).

(** The field [complete]: the constructor of [Expression2] stores the
    test above; [Atom2] has no such field, so reading it gives
    [undefined], which a condition takes as false. *)
Definition complete (t : Term) : bool :=
  match t with
  | Atom2 _ => false
  | Expression2 _ _ _ => isComplete t
  end.

(** The number of operators of a term. *)
Fixpoint operationCount (t : Term) : nat :=
  match t with
  | Atom2 _ => O
  | Expression2 leftTerm _ rightTerm =>
      S (operationCount leftTerm + operationCount rightTerm)
  end.

(** [Expression2.Operations[operation](Left, Right)] *)
Definition Operations (op : Operation) (Left Right : Exact) : Outcome :=
  match op with
  | OpPlus => Exact.plus Left Right
  | OpMinus => Exact.minus Left Right
  | OpTimes => Value (Exact.times Left Right)
  | OpOver => Exact.over Left Right
  | OpToThe => ExactPow.toThe Left Right
  end.

(** The field [evaluate] of [Atom2] and the getter of [Expression2].  A
    flag object has no arithmetic methods, so calling one on a left
    operand that is a flag raises a TypeError.  A right operand that is a
    flag has no BigInt fields: [plus], [minus], [times] and [over]
    multiply by its [den], which is [undefined], and raise a TypeError;
    [toThe] first tests [that.root !== 1n], which holds of [undefined],
    and returns the error flag. *)
Fixpoint evaluate (t : Term) : Outcome :=
  match t with
  | Atom2 value => Value (newExact value)
  | Expression2 leftTerm operation rightTerm =>
      match evaluate leftTerm, evaluate rightTerm with
      | Value Left, Value Right => Operations operation Left Right
      | Value _, (ErrorFlag | OverflowFlag) =>
          match operation with
          | OpToThe => ErrorFlag
          | _ => Thrown
          end
      | _, _ => Thrown
      end
  end.

(** The field [display] of [Atom2] (the rendering of an integer) and the
    getter of [Expression2]. *)
Fixpoint termDisplay (t : Term) : string :=
  match t with
  | Atom2 value => displayInt value
  | Expression2 leftTerm operation rightTerm =>
      ("(" ++ termDisplay leftTerm ++ " " ++ operationSymbol operation
           ++ " " ++ termDisplay rightTerm ++ ")")%string
  end.

(** ** Plain objects as ordered tables

    [for ... in] and [Object.keys] enumerate first the keys that are array
    indices (canonical decimal numerals below 2^32 - 1) in ascending
    numeric order, then the other string keys in the order of their
    creation.  Assigning to an existing key keeps its place. *)

Definition Obj (A : Type) : Type := list (string * A).

Definition isDigit (c : ascii) : bool :=
  ((48 <=? N_of_ascii c) && (N_of_ascii c <=? 57))%N.

Fixpoint parseDigits (s : string) (acc : N) : option N :=
  match s with
  | EmptyString => Some acc
  | String c rest =>
      if isDigit c then parseDigits rest (acc * 10 + (N_of_ascii c - 48))%N
      else None
  end.

Definition arrayIndex (s : string) : option N :=
  match s with
  | EmptyString => None
  | String c rest =>
      if Ascii.eqb c "0"%char
      then (if String.eqb rest EmptyString then Some 0%N else None)
      else
        match parseDigits s 0%N with
        | Some n => if (n <? 2 ^ 32 - 1)%N then Some n else None
        | None => None
        end
  end.

Section JsObject.

Context {A : Type}.

(** [o[k]] *)
Fixpoint objGet (o : Obj A) (k : string) : option A :=
  match o with
  | [] => None
  | (k', v) :: rest => if String.eqb k' k then Some v else objGet rest k
  end.

Fixpoint objReplace (k : string) (v : A) (o : Obj A) : Obj A :=
  match o with
  | [] => []
  | (k', v') :: rest =>
      if String.eqb k' k then (k', v) :: rest
      else (k', v') :: objReplace k v rest
  end.

Fixpoint objInsertIndex (n : N) (k : string) (v : A) (o : Obj A) : Obj A :=
  match o with
  | [] => [(k, v)]
  | (k', v') :: rest =>
      match arrayIndex k' with
      | Some n' =>
          if (n <? n')%N then (k, v) :: o
          else (k', v') :: objInsertIndex n k v rest
      | None => (k, v) :: o
      end
  end.

(** [o[k] = v] *)
Definition objSet (k : string) (v : A) (o : Obj A) : Obj A :=
  match objGet o k with
  | Some _ => objReplace k v o
  | None =>
      match arrayIndex k with
      | Some n => objInsertIndex n k v o
      | None => o ++ [(k, v)]
      end
  end.

(** [Object.keys(o)], also the order of [for (const k in o)] *)
Definition objKeys (o : Obj A) : list string := map fst o.

End JsObject.

(** Iteration with a body that may raise. *)
Fixpoint foldM {S X : Type} (body : S -> X -> option S) (xs : list X) (s : S)
  : option S :=
  match xs with
  | [] => Some s
  | x :: rest =>
      match body s x with
      | Some s' => foldM body rest s'
      | None => None
      end
  end.

(** ** The search *)

(** [compositionPair(Num)] *)
Fixpoint compositionPair_from (Num i : nat) : list (nat * nat) :=
  match i with
  | O => [(O, Num)]
  | S i' => (i, (Num - i)%nat) :: compositionPair_from Num i'
  end.

Definition compositionPair (Num : nat) : list (nat * nat) :=
  compositionPair_from Num Num.

(** [Object.keys(Expression2.Operations)] in [getExpression_version2] and
    the same list without the power operator in [getExpression_version3]. *)
Definition OperationList_version2 : list Operation :=
  [OpPlus; OpMinus; OpTimes; OpOver; OpToThe].

Definition OperationList_version3 : list Operation :=
  filter (fun op => match op with OpToThe => false | _ => true end)
         OperationList_version2.

Section OperationLoop.

Context {S : Type}.
(** What follows the [break] test inside [for (const Operation of
    OperationList)]. *)
Variable body : Operation -> S -> option S.
Variable ignoreSumAndMul : bool.

Fixpoint operationLoop (ops : list Operation) (st : S) : option S :=
  match ops with
  | [] => Some st
  | Operation :: rest =>
      if ignoreSumAndMul && isSumOrMul Operation
      then Some st (* break *)
      else
        match body Operation st with
        | Some st' => operationLoop rest st'
        | None => None
        end
  end.

End OperationLoop.

(** The variables of [getExpression_version3] that the innermost loop
    updates: [List[operations]], [knownNumbers] and [floatCounter]. *)
Record Search : Type := mkSearch {
  table : Obj Term;
  knownNumbers : list string;
  floatCounter : Z
}.

(** [knownNumbers.includes(Display)] *)
Definition includes (known : list string) (Display : string) : bool :=
  existsb (String.eqb Display) known.

Section Level.

Variable N : nat.
Variable operations : nat.

(** One turn of the innermost loop after the [break] test. *)
Definition attempt (LeftExpression RightExpression : Term)
           (Operation : Operation) (st : Search) : option Search :=
  let next (s : Search) :=
    Some {| table := table s; knownNumbers := knownNumbers s;
            floatCounter := floatCounter s + 1 |} in
  if negb (end_ LeftExpression =? start RightExpression) then
    let newExpression := Expression2 LeftExpression Operation RightExpression in
    match evaluate newExpression with
    | Thrown => None
    | ErrorFlag | OverflowFlag => next st
    | Value Verify =>
        match display Verify with
        | FloatFlag =>
            if (operations <? N)%nat
            then next {| table := objSet ("float" ++ displayInt (floatCounter st))
                                    newExpression (table st);
                         knownNumbers := knownNumbers st;
                         floatCounter := floatCounter st |}
            else next st
        | Str Display =>
            if negb (includes (knownNumbers st) Display)
               && (String.length Display <? 20)%nat
            then
              next {| table :=
                        if complete newExpression || (operations <? N)%nat
                        then objSet Display newExpression (table st)
                        else table st;
                      knownNumbers :=
                        if complete newExpression
                        then knownNumbers st ++ [Display]
                        else knownNumbers st;
                      floatCounter := floatCounter st |}
            else next st
        end
    end
  else next st.

(** The callback of [Compositions.forEach]; [List] holds the finished
    levels [0 .. operations - 1], the only ones a composition reads. *)
Definition compose (List : list (Obj Term))
           (st : Obj Term * list string) (composition : nat * nat)
  : option (Obj Term * list string) :=
  match nth_error List (fst composition), nth_error List (snd composition) with
  | Some LeftNumbers, Some RightNumbers =>
      let ignoreSumAndMul := (fst composition <? snd composition)%nat in
      match
        foldM (fun s LeftIndex =>
          foldM (fun s RightIndex =>
            match objGet LeftNumbers LeftIndex, objGet RightNumbers RightIndex with
            | Some LeftExpression, Some RightExpression =>
                operationLoop (attempt LeftExpression RightExpression)
                  ignoreSumAndMul OperationList_version3 s
            | _, _ => None
            end) (objKeys RightNumbers) s)
          (objKeys LeftNumbers)
          {| table := fst st; knownNumbers := snd st; floatCounter := 0 |}
      with
      | Some s => Some (table s, knownNumbers s)
      | None => None
      end
  | _, _ => None
  end.

(** One turn of [for (let operations = 1; operations <= N; operations++)]. *)
Definition level (st : list (Obj Term) * list string)
  : option (list (Obj Term) * list string) :=
  match foldM (compose (fst st)) (compositionPair (operations - 1)) ([], snd st) with
  | Some (tbl, known) => Some (fst st ++ [tbl], known)
  | None => None
  end.

End Level.

(** The initial [List]: the literal is filled key by key. *)
Definition atoms : list Z := [-6; 6; -9; 9; 69; -69].

Definition List0 : list (Obj Term) :=
  [fold_left (fun o v => objSet (displayInt v) (Atom2 v) o) atoms []].

Definition knownNumbers0 : list string := ["69"; "-69"]%string.

(** The [for] loop over [operations], [remaining] turns left. *)
Fixpoint levels_from (N remaining operations : nat)
         (st : list (Obj Term) * list string)
  : option (list (Obj Term) * list string) :=
  match remaining with
  | O => Some st
  | S remaining' =>
      match level N operations st with
      | Some st' => levels_from N remaining' (S operations) st'
      | None => None
      end
  end.

(** [List] and [knownNumbers] when the loop over [operations] is left. *)
Definition levels (N : nat) : option (list (Obj Term) * list string) :=
  levels_from N N 1 (List0, knownNumbers0).

(** The callback of [List.forEach] that fills [DisplayList]. *)
Definition project (level : Obj Term) : Obj string :=
  fold_left (fun Obj_ Num =>
    match objGet level Num with
    | Some t =>
        if complete t && negb (String.eqb (termDisplay t) EmptyString)
        then objSet Num (termDisplay t) Obj_
        else Obj_
    | None => Obj_
    end) (objKeys level) [].

(** What [getExpression_version3] returns: the array [List] itself when
    [N === 0], the object [{DisplayList, knownNumbers}] otherwise. *)
Inductive Result : Type :=
| ReturnList (List : list (Obj Term))
| ReturnDisplay (DisplayList : list (Obj string)) (known : list string).

Definition getExpression_version3 (N : nat) : option Result :=
  match N with
  | O => Some (ReturnList List0)
  | _ =>
      match levels N with
      | Some (List, known) => Some (ReturnDisplay (map project List) known)
      | None => None
      end
  end.

(** ** Predicates used in the statements *)

(** A fraction in lowest terms with a positive denominator. *)
Definition reduced (e : Exact) : Prop :=
  0 < den e /\ Z.gcd (Z.abs (num e)) (den e) = 1.

(** A string that does not begin with the letter f. *)
Definition noF (s : string) : Prop :=
  match s with
  | EmptyString => True
  | String c _ => c <> "f"%char
  end.

(** Every term of a level table evaluates to a fraction with a positive
    denominator, sits under the decimal rendering of its value unless the
    value is not an integer, and has [k] operators. *)
Definition keyed (k : nat) (T : Obj Term) : Prop :=
  forall key t, objGet T key = Some t ->
    exists e, evaluate t = Value e /\ 0 < den e /\
              (display e = FloatFlag \/ display e = Str key) /\
              operationCount t = k.

(** Every complete term with an integer value has its key in
    [knownNumbers]. *)
Definition settled (T : Obj Term) (known : list string) : Prop :=
  forall key t e, objGet T key = Some t -> evaluate t = Value e ->
    display e = Str key -> isComplete t = true -> In key known.

(** No key of [known0] is used in the table. *)
Definition untouched (T : Obj Term) (known0 : list string) : Prop :=
  forall key, In key known0 -> objGet T key = None.

(** [knownNumbers] only holds renderings of integers. *)
Definition decimalKeys (known : list string) : Prop :=
  forall key, In key known -> exists z, key = displayInt z.

(** What holds of [List[operations]] and [knownNumbers] all along the
    construction of level [k]; [known0] is [knownNumbers] when it starts. *)
Definition levelInv (k : nat) (known0 : list string)
           (T : Obj Term) (known : list string) : Prop :=
  keyed k T /\ settled T known /\ untouched T known0 /\
  incl known0 known /\ decimalKeys known.

(** The key of a complete integer term of [li] is not used in [lj]. *)
Definition final (li lj : Obj Term) : Prop :=
  forall key t e, objGet li key = Some t -> evaluate t = Value e ->
    display e = Str key -> isComplete t = true -> objGet lj key = None.

(** What holds of [List] and [knownNumbers] between two levels. *)
Definition searchInv (List : list (Obj Term)) (known : list string) : Prop :=
  (forall i lvl, nth_error List i = Some lvl ->
     keyed i lvl /\ settled lvl known /\
     ((1 <= i)%nat -> untouched lvl knownNumbers0)) /\
  (forall i j li lj, (i < j)%nat -> nth_error List i = Some li ->
     nth_error List j = Some lj -> final li lj) /\
  incl knownNumbers0 known /\ decimalKeys known /\
  nth_error List 0 = nth_error List0 0.

(** ** Terms used as examples *)

(** [(-6 + 9)], the term the search keeps for 3 at level 1. *)
Definition three : Term := Expression2 (Atom2 (-6)) OpPlus (Atom2 9).

(** [((-6 + 9) * (-6 + 9))] *)
Definition nine : Term := Expression2 three OpTimes three.

(** [(((6 - 9) * -6) - 9)] *)
Definition nineKept : Term :=
  Expression2
    (Expression2 (Expression2 (Atom2 6) OpMinus (Atom2 9)) OpTimes (Atom2 (-6)))
    OpMinus (Atom2 9).

(** [69 * 69 * ... * 69] with [n] products, nested to the left. *)
Fixpoint powerOf69 (n : nat) : Term :=
  match n with
  | O => Atom2 69
  | S n' => Expression2 (powerOf69 n') OpTimes (Atom2 69)
  end.

(** [(6 + 9)], the term the search keeps for 15 at level 1. *)
Definition fifteen : Term := Expression2 (Atom2 6) OpPlus (Atom2 9).

(** [(69 ^ 10 * (6 + 9))]: the left operand is complete and its value
    2446194060654759801 has 19 digits; the value 36692910909821397015 of
    the product has 20. *)
Definition twentyDigits : Term := Expression2 (powerOf69 9) OpTimes fifteen.

(** [((69 - 69) ** -6)]: zero to a negative power. *)
Definition zeroPower : Term :=
  Expression2 (Expression2 (Atom2 69) OpMinus (Atom2 69)) OpToThe (Atom2 (-6)).

(** ** Further predicates and readings

    Used to state properties of the arithmetic and of the terms the search
    keeps. *)

(** The operand [This] that [toThe] multiplies: the inverse of the base
    for a negative exponent, a copy of the base otherwise. *)
Definition toTheBase (this that : Exact) : Exact :=
  if num that <? 0 then Exact.inverse this else Exact.copy this.

(** The integer a decimal numeral denotes, to read back what [display]
    wrote: an optional minus sign, then digits. *)
Definition digitValue (c : ascii) : option Z :=
  if isDigit c then Some (Z.of_N (N_of_ascii c - 48)) else None.

Fixpoint digitsValue (s : string) (acc : Z) : option Z :=
  match s with
  | EmptyString => Some acc
  | String c rest =>
      match digitValue c with
      | Some d => digitsValue rest (10 * acc + d)
      | None => None
      end
  end.

Definition numeralValue (s : string) : option Z :=
  match s with
  | EmptyString => None
  | String c rest =>
      if Ascii.eqb c "-"%char
      then option_map Z.opp (digitsValue rest 0)
      else digitsValue s 0
  end.

(** Every term of a table satisfies [Q]. *)
Definition allTerms (Q : Term -> Prop) (T : Obj Term) : Prop :=
  forall key t, objGet T key = Some t -> Q t.

(** Some table holds, under [key], a complete term whose integer value is
    rendered as [key]. *)
Definition settledBy (tables : list (Obj Term)) (key : string) : Prop :=
  exists i lvl t V,
    nth_error tables i = Some lvl /\ objGet lvl key = Some t /\
    complete t = true /\ evaluate t = Value (newExact V) /\ key = displayInt V.

(** Where the elements of [knownNumbers] come from while the table [T] is
    built on top of the finished levels [List]. *)
Definition knownFrom (List : list (Obj Term)) (T : Obj Term)
           (known : list string) : Prop :=
  forall key, In key known ->
    In key knownNumbers0 \/ settledBy List key \/ settledBy [T] key.

(** The adjacency rule holds at every join of the term. *)
Fixpoint wellJoined (t : Term) : Prop :=
  match t with
  | Atom2 _ => True
  | Expression2 l _ r => end_ l <> start r /\ wellJoined l /\ wellJoined r
  end.

(** At every join the right operand has at most as many operators as the
    left one. *)
Fixpoint leftHeavy (t : Term) : Prop :=
  match t with
  | Atom2 _ => True
  | Expression2 l _ r =>
      (operationCount r <= operationCount l)%nat /\ leftHeavy l /\ leftHeavy r
  end.

(** Built from the six atoms with the four operators of
    [getExpression_version3]. *)
Fixpoint plain (t : Term) : Prop :=
  match t with
  | Atom2 v => In v atoms
  | Expression2 l op r => In op OperationList_version3 /\ plain l /\ plain r
  end.

(** Every operand inside the term evaluates to an [Exact], and no divisor
    is zero. *)
Fixpoint noZeroDivisor (t : Term) : Prop :=
  match t with
  | Atom2 _ => True
  | Expression2 l op r =>
      noZeroDivisor l /\ noZeroDivisor r /\
      (exists a, evaluate l = Value a) /\
      (exists b, evaluate r = Value b /\ (op = OpOver -> num b <> 0))
  end.

(** What holds, besides [levelInv], while a level is built. *)
Definition levelInv2 (Q : Term -> Prop) (List : list (Obj Term)) (T : Obj Term)
           (known : list string) : Prop :=
  allTerms Q T /\ NoDup known /\ knownFrom List T known.

(** What holds, besides [searchInv], between two levels. *)
Definition searchInv2 (Q : Term -> Prop) (List : list (Obj Term))
           (known : list string) : Prop :=
  (forall i lvl, nth_error List i = Some lvl -> allTerms Q lvl) /\
  NoDup known /\
  (forall key, In key known -> In key knownNumbers0 \/ settledBy List key).

(** ** The search of [getExpression_version2]

    It keeps every expression found for a value, in an array per key, and
    all non-integer ones in the array under the key [float]. *)

(** One turn of the innermost callback: [leftExpression] and
    [rightExpression] joined by [Operation]. *)
Definition attempt_version2 (knownNumbers : list string)
           (leftExpression rightExpression : Term) (Operation : Operation)
           (newList : Obj (list Term)) : option (Obj (list Term)) :=
  if negb (end_ leftExpression =? start rightExpression) then
    let newExpression := Expression2 leftExpression Operation rightExpression in
    match evaluate newExpression with
    | Thrown => None
    | ErrorFlag | OverflowFlag => Some newList
    | Value Verify =>
        match display Verify with
        | FloatFlag =>
            (* newList.float.push(newExpression) *)
            match objGet newList "float"%string with
            | Some float => Some (objSet "float"%string (float ++ [newExpression]) newList)
            | None => None
            end
        | Str Display =>
            if negb (includes knownNumbers Display) then
              let newList1 :=
                match objGet newList Display with
                | Some _ => newList
                | None => objSet Display [] newList
                end in
              match objGet newList1 Display with
              | Some l => Some (objSet Display (l ++ [newExpression]) newList1)
              | None => None
              end
            else Some newList
        end
    end
  else Some newList.

(** The callback of [Compositions.forEach]. *)
Definition compose_version2 (knownNumbers : list string) (List : list (Obj (list Term)))
           (newList : Obj (list Term)) (composition : nat * nat)
  : option (Obj (list Term)) :=
  match nth_error List (fst composition), nth_error List (snd composition) with
  | Some LeftNumbers, Some RightNumbers =>
      let ignoreSumAndMul := (fst composition <? snd composition)%nat in
      foldM (fun s LeftExpressions =>
        foldM (fun s RightExpressions =>
          operationLoop
            (fun Operation s =>
               match objGet LeftNumbers LeftExpressions,
                     objGet RightNumbers RightExpressions with
               | Some lefts, Some rights =>
                   foldM (fun s leftExpression =>
                     foldM (fun s rightExpression =>
                       attempt_version2 knownNumbers leftExpression
                         rightExpression Operation s) rights s) lefts s
               | _, _ => None
               end)
            ignoreSumAndMul OperationList_version2 s)
          (objKeys RightNumbers) s)
        (objKeys LeftNumbers) newList
  | _, _ => None
  end.

(** [New > -10000 && New < 10000] for a key [New]: the string is converted
    to a number, [float] to NaN, which fails both comparisons. *)
Definition inRange (New : string) : bool :=
  match numeralValue New with
  | Some v => (-10000 <? v) && (v <? 10000)
  | None => false
  end.

(** The callback of [newKeys.forEach]. *)
Definition settle_version2 (newList : Obj (list Term))
           (knownNumbers : list string) (New : string) : list string :=
  match objGet newList New with
  | Some l =>
      if inRange New && (0 <? Datatypes.length (filter complete l))%nat
      then knownNumbers ++ [New] else knownNumbers
  | None => knownNumbers
  end.

(** One turn of the loop over [operations]. *)
Definition level_version2 (operations : nat)
           (st : list (Obj (list Term)) * list string)
  : option (list (Obj (list Term)) * list string) :=
  match foldM (compose_version2 (snd st) (fst st))
              (compositionPair (operations - 1))
              [("float"%string, [])] with
  | Some newList =>
      Some (fst st ++ [newList],
            fold_left (settle_version2 newList) (objKeys newList) (snd st))
  | None => None
  end.

Definition List0_version2 : list (Obj (list Term)) :=
  [fold_left (fun o v => objSet (displayInt v) [Atom2 v] o) atoms []].

Fixpoint levels_from_version2 (remaining operations : nat)
         (st : list (Obj (list Term)) * list string)
  : option (list (Obj (list Term)) * list string) :=
  match remaining with
  | O => Some st
  | S remaining' =>
      match level_version2 operations st with
      | Some st' => levels_from_version2 remaining' (S operations) st'
      | None => None
      end
  end.

Definition levels_version2 (N : nat)
  : option (list (Obj (list Term)) * list string) :=
  levels_from_version2 N 1 (List0_version2, knownNumbers0).




(** Every expression of a table of version 2 evaluates to an [Exact], has
    [k] operators, and is listed under [float] when its value is not an
    integer, under the rendering of its value otherwise. *)
Definition keyed2 (k : nat) (T : Obj (list Term)) : Prop :=
  forall key l t, objGet T key = Some l -> In t l ->
    exists e, evaluate t = Value e /\ operationCount t = k /\
              ((key = "float"%string /\ display e = FloatFlag) \/
               display e = Str key).

Definition allTerms2 (Q : Term -> Prop) (T : Obj (list Term)) : Prop :=
  forall key l t, objGet T key = Some l -> In t l -> Q t.

(** Some table lists, under [key], a complete expression whose integer
    value, strictly between -10000 and 10000, is rendered as [key]. *)
Definition settledBy2 (tables : list (Obj (list Term))) (key : string) : Prop :=
  exists i lvl l t V,
    nth_error tables i = Some lvl /\ objGet lvl key = Some l /\ In t l /\
    complete t = true /\ evaluate t = Value (newExact V) /\
    key = displayInt V /\ -10000 < V < 10000.

Definition levelInv_version2 (Q : Term -> Prop) (k : nat) (known0 : list string)
           (T : Obj (list Term)) : Prop :=
  keyed2 k T /\ allTerms2 Q T /\
  (forall key, In key known0 -> objGet T key = None).

Definition searchInv_version2 (Q : Term -> Prop) (List : list (Obj (list Term)))
           (known : list string) : Prop :=
  (forall i lvl, nth_error List i = Some lvl -> keyed2 i lvl /\ allTerms2 Q lvl) /\
  (forall key, In key known -> numeralValue key <> None) /\
  (forall i lvl key l t,
      nth_error List i = Some lvl -> objGet lvl key = Some l -> In t l ->
      complete t = true -> inRange key = true -> In key known) /\
  (forall i j li lj key l t,
      (i < j)%nat -> nth_error List i = Some li -> nth_error List j = Some lj ->
      objGet li key = Some l -> In t l -> complete t = true ->
      inRange key = true -> objGet lj key = None) /\
  (forall key, In key known -> In key knownNumbers0 \/ settledBy2 List key).

(** * Properties *)

(** ** The greatest common divisor *)

Lemma Abs_abs X : Exact.Abs X = Z.abs X.
Proof. unfold Exact.Abs. destruct (Z.ltb_spec X 0); lia. Qed.

Lemma rem_halves (Y X1 : Z) :
  X1 <> 0 -> Z.abs X1 < Z.abs Y -> 2 * Z.abs (Z.rem Y X1) < Z.abs Y.
Proof.
  intros HX1 Hlt.
  rewrite <- Z.rem_abs by assumption.
  rewrite Z.rem_mod_nonneg by lia.
  pose proof (Z.mod_pos_bound (Z.abs Y) (Z.abs X1) ltac:(lia)) as Hb.
  pose proof (Z.div_mod (Z.abs Y) (Z.abs X1) ltac:(lia)) as Hd.
  assert (1 <= Z.abs Y / Z.abs X1) by (apply Z.div_le_lower_bound; lia).
  nia.
Qed.


Lemma log2_halves (a b : Z) : 0 < a -> 2 * a < b -> Z.log2 a + 1 <= Z.log2 b.
Proof.
  intros Ha Hab.
  pose proof (Z.log2_double a Ha) as Hd.
  pose proof (Z.log2_le_mono (2 * a) b ltac:(lia)). lia.
Qed.

Lemma gcd_loop_returns (fuel : nat) : forall X Y,
  Z.log2 (Z.abs Y) < Z.of_nat fuel ->
  exists g, Exact.gcd_loop fuel X Y = Some g.
Proof.
  induction fuel as [|fuel IH]; intros X Y Hf.
  - pose proof (Z.log2_nonneg (Z.abs Y)). lia.
  - cbn [Exact.gcd_loop].
    destruct (Z.eqb_spec Y 0) as [->|HY]; [eauto|].
    destruct (Z.eqb_spec (Z.rem X Y) 0) as [H0|HX1]; [eauto|].
    apply IH.
    pose proof (Z.rem_bound_abs X Y HY) as Hb.
    pose proof (rem_halves Y (Z.rem X Y) HX1 Hb) as Hh.
    destruct (Z.eq_dec (Z.rem Y (Z.rem X Y)) 0) as [E|E].
    + rewrite E. change (Z.log2 (Z.abs 0)) with 0.
      pose proof (Z.log2_le_mono 2 (Z.abs Y) ltac:(lia)) as Hl.
      change (Z.log2 2) with 1 in Hl. lia.
    + pose proof (log2_halves (Z.abs (Z.rem Y (Z.rem X Y))) (Z.abs Y) ltac:(lia) Hh). lia.
Qed.

Lemma gcd_returns (X Y : Z) :
  exists g, Exact.gcd_loop (Exact.gcd_fuel Y) X Y = Some g.
Proof.
  apply gcd_loop_returns. unfold Exact.gcd_fuel.
  pose proof (Z.log2_nonneg (Z.abs Y)). lia.
Qed.

Lemma gcd_rem_step (X Y : Z) :
  0 <= X -> 0 < Y -> Z.gcd X Y = Z.gcd (Z.rem X Y) Y.
Proof.
  intros HX HY. rewrite Z.rem_mod_nonneg by lia.
  rewrite Z.gcd_mod by lia. apply Z.gcd_comm.
Qed.

Lemma gcd_loop_spec (fuel : nat) : forall X Y g,
  0 <= X -> 0 <= Y -> Exact.gcd_loop fuel X Y = Some g -> g = Z.gcd X Y.
Proof.
  induction fuel as [|fuel IH]; intros X Y g HX HY; cbn [Exact.gcd_loop]; [discriminate|].
  destruct (Z.eqb_spec Y 0) as [->|HY0].
  - intros [= <-]. rewrite Z.gcd_0_r. lia.
  - pose proof (Z.rem_bound_pos X Y HX ltac:(lia)) as Hb.
    rewrite (gcd_rem_step X Y) by lia.
    destruct (Z.eqb_spec (Z.rem X Y) 0) as [H0|HX1].
    + intros [= <-]. rewrite H0. cbn. lia.
    + intros Hg.
      pose proof (Z.rem_bound_pos Y (Z.rem X Y) HY ltac:(lia)) as Hb1.
      apply IH in Hg; [| lia | lia].
      rewrite Hg, (Z.gcd_comm (Z.rem X Y) Y).
      rewrite (gcd_rem_step Y (Z.rem X Y)) by lia.
      apply Z.gcd_comm.
Qed.

Lemma gcd_spec (X Y : Z) : 0 <= X -> 0 <= Y -> Exact.gcd X Y = Z.gcd X Y.
Proof.
  intros HX HY. unfold Exact.gcd.
  destruct (Z.gtb_spec Y X).
  - destruct (gcd_returns Y X) as [g Hg]. rewrite Hg.
    rewrite (gcd_loop_spec _ _ _ _ HY HX Hg). apply Z.gcd_comm.
  - destruct (gcd_returns X Y) as [g Hg]. rewrite Hg.
    apply (gcd_loop_spec _ _ _ _ HX HY Hg).
Qed.

(** ** Reduced results *)

Lemma quot_exact (a g : Z) : g <> 0 -> (g | a) -> Z.quot a g = a / g.
Proof.
  intros Hg [q ->]. rewrite Z.quot_mul, Z.div_mul by assumption. reflexivity.
Qed.

(** The common tail of the arithmetic methods: divide both parts by the
    gcd of the magnitude of the numerator and the denominator. *)
Lemma reduce_spec (Num Den r : Z) :
  0 < Den ->
  let GCD := Exact.gcd (Exact.Abs Num) Den in
  0 < GCD /\
  reduced (mkExact (Z.quot Num GCD) (Z.quot Den GCD) r) /\
  Z.quot Num GCD * Den = Num * Z.quot Den GCD.
Proof.
  intros HDen GCD.
  assert (HG : GCD = Z.gcd Num Den).
  { unfold GCD. rewrite Abs_abs, gcd_spec by lia. apply Z.gcd_abs_l. }
  assert (Hpos : 0 < GCD).
  { rewrite HG. pose proof (Z.gcd_nonneg Num Den).
    destruct (Z.eq_dec (Z.gcd Num Den) 0) as [E|E]; [|lia].
    apply Z.gcd_eq_0_r in E. lia. }
  assert (HdN : (GCD | Num)) by (rewrite HG; apply Z.gcd_divide_l).
  assert (HdD : (GCD | Den)) by (rewrite HG; apply Z.gcd_divide_r).
  rewrite !quot_exact by (assumption || lia).
  split; [assumption|]. split.
  - split; cbn [num den].
    + destruct HdD as [q Hq]. rewrite Hq, Z.div_mul by lia. nia.
    + rewrite Z.gcd_abs_l. apply Z.gcd_div_gcd; [lia | assumption].
  - destruct HdN as [q1 Hq1], HdD as [q2 Hq2].
    rewrite Hq1, Hq2, !Z.div_mul by lia. ring.
Qed.

Lemma plus_reduced (a b : Exact) :
  0 < den a -> 0 < den b ->
  exists r, Exact.plus a b = Value r /\ reduced r /\
            num r * (den a * den b) = (num a * den b + den a * num b) * den r.
Proof.
  intros Ha Hb. unfold Exact.plus.
  destruct (reduce_spec (num a * den b + den a * num b) (den a * den b) 1
              ltac:(nia)) as (Hg & Hr & Hv).
  destruct (Z.eqb_spec (Exact.gcd (Exact.Abs (num a * den b + den a * num b))
                          (den a * den b)) 0) as [E|E]; [lia|].
  eexists. split; [reflexivity|]. split; assumption.
Qed.

Lemma minus_reduced (a b : Exact) :
  0 < den a -> 0 < den b ->
  exists r, Exact.minus a b = Value r /\ reduced r /\
            num r * (den a * den b) = (num a * den b - den a * num b) * den r.
Proof.
  intros Ha Hb. unfold Exact.minus.
  destruct (reduce_spec (num a * den b - den a * num b) (den a * den b) 1
              ltac:(nia)) as (Hg & Hr & Hv).
  destruct (Z.eqb_spec (Exact.gcd (Exact.Abs (num a * den b - den a * num b))
                          (den a * den b)) 0) as [E|E]; [lia|].
  eexists. split; [reflexivity|]. split; assumption.
Qed.

Lemma times_reduced (a b : Exact) :
  0 < den a -> 0 < den b ->
  reduced (Exact.times a b) /\ root (Exact.times a b) = 1 /\
  num (Exact.times a b) * (den a * den b) = (num a * num b) * den (Exact.times a b).
Proof.
  intros Ha Hb. unfold Exact.times.
  destruct (reduce_spec (num a * num b) (den a * den b) 1
              ltac:(nia)) as (Hg & Hr & Hv).
  destruct (Z.eqb_spec (Exact.gcd (Exact.Abs (num a * num b))
                          (den a * den b)) 0) as [E|E]; [lia|].
  cbn [num den root]. auto.
Qed.

Lemma over_reduced (a b : Exact) :
  0 < den a -> num b <> 0 ->
  exists r, Exact.over a b = Value r /\ reduced r /\ root r = 1 /\
            num r * (den a * num b) = (num a * den b) * den r.
Proof.
  intros Ha Hb. unfold Exact.over.
  destruct (Z.eqb_spec (num b) 0) as [E|_]; [contradiction|].
  set (Num := num a * den b). set (Den := den a * num b).
  set (Factor := if Den <? 0 then -1 else 1).
  assert (HDen : Den <> 0) by (unfold Den; nia).
  assert (HAbs : Exact.Abs Den = Factor * Den).
  { rewrite Abs_abs. unfold Factor. destruct (Z.ltb_spec Den 0); lia. }
  assert (HF : Factor * Factor = 1).
  { unfold Factor. destruct (Den <? 0); reflexivity. }
  assert (HN : Exact.Abs Num = Exact.Abs (Factor * Num)).
  { rewrite !Abs_abs. unfold Factor. destruct (Den <? 0); lia. }
  rewrite HN.
  destruct (reduce_spec (Factor * Num) (Exact.Abs Den) 1) as (Hg & Hr & Hv).
  { rewrite Abs_abs. lia. }
  destruct (Z.eqb_spec (Exact.gcd (Exact.Abs (Factor * Num)) (Exact.Abs Den)) 0)
    as [E|E]; [lia|].
  eexists. split; [reflexivity|]. split; [assumption|]. split; [reflexivity|].
  cbn [num den]. rewrite HAbs in Hv |- *.
  set (rn := Z.quot (Factor * Num) (Exact.gcd (Exact.Abs (Factor * Num)) (Factor * Den))) in *.
  set (rd := Z.quot (Factor * Den) (Exact.gcd (Exact.Abs (Factor * Num)) (Factor * Den))) in *.
  assert (Factor * (rn * Den) = Factor * (Num * rd)) by lia.
  assert (Factor <> 0) by lia.
  apply Z.mul_reg_l in H; assumption.
Qed.

Lemma reduced_unique (n1 d1 n2 d2 : Z) :
  0 < d1 -> Z.gcd (Z.abs n1) d1 = 1 ->
  0 < d2 -> Z.gcd (Z.abs n2) d2 = 1 ->
  n1 * d2 = n2 * d1 -> n1 = n2 /\ d1 = d2.
Proof.
  intros H1 G1 H2 G2 E.
  rewrite Z.gcd_abs_l in G1, G2.
  assert (D12 : (d1 | d2)).
  { apply Z.gauss with (m := n1).
    - exists n2. lia.
    - rewrite Z.gcd_comm. assumption. }
  assert (D21 : (d2 | d1)).
  { apply Z.gauss with (m := n2).
    - exists n1. lia.
    - rewrite Z.gcd_comm. assumption. }
  assert (d1 = d2) by (apply Z.divide_antisym_nonneg; (lia || assumption)).
  subst d2. split; [|reflexivity]. nia.
Qed.

(** ** Exponentiation *)

Lemma toThe_root_not_one (a b : Exact) :
  root b <> 1 -> ExactPow.toThe a b = ErrorFlag.
Proof.
  intros H. unfold ExactPow.toThe.
  destruct (Z.eqb_spec (root b) 1); [contradiction|reflexivity].
Qed.

Lemma toThe_root_one (a b : Exact) :
  root b = 1 ->
  ExactPow.toThe a b <> ErrorFlag /\
  forall r, ExactPow.toThe a b = Value r ->
            root r = den b /\ (den b <> 1 -> display r = FloatFlag).
Proof.
  intros H. unfold ExactPow.toThe. rewrite H. change (negb (1 =? 1)) with false.
  cbv iota.
  destruct (Exact.Abs (num b) >? 100); [split; [discriminate|intros r; discriminate]|].
  destruct (ExactPow.powLoop _ _ _) as [Res|]; [|split; [discriminate|intros r; discriminate]].
  destruct (Exact.gcd _ _ =? 0); [split; [discriminate|intros r; discriminate]|].
  split; [discriminate|]. intros r [= <-]. cbn [root]. split; [reflexivity|].
  intros Hd. unfold display. cbn [den root].
  destruct (Z.eqb_spec (den b) 1); [contradiction|].
  rewrite orb_true_r. reflexivity.
Qed.

(** An exponent of magnitude above 100 overflows before the loop. *)
Lemma toThe_large_exponent (a b : Exact) :
  root b = 1 -> 100 < Z.abs (num b) -> ExactPow.toThe a b = OverflowFlag.
Proof.
  intros H Hl. unfold ExactPow.toThe. rewrite H. change (negb (1 =? 1)) with false.
  cbv iota. rewrite Abs_abs.
  destruct (Z.gtb_spec (Z.abs (num b)) 100); [reflexivity|lia].
Qed.

(** ** The decimal loops *)

Lemma log10_fuel_bound (b : Z) : Z.abs b < 10 ^ Z.of_nat (log10_fuel b).
Proof.
  unfold log10_fuel. rewrite Nat2Z.inj_succ, Z2Nat.id by apply Z.log2_nonneg.
  destruct (Z.eq_dec b 0) as [->|Hb]; [reflexivity|].
  pose proof (Z.log2_spec (Z.abs b) ltac:(lia)) as [_ Hu].
  pose proof (Z.log2_nonneg (Z.abs b)).
  pose proof (Z.pow_le_mono_l 2 10 (Z.succ (Z.log2 (Z.abs b))) ltac:(lia)).
  lia.
Qed.

Lemma quot10_bound (b : Z) (n : nat) :
  Z.abs b < 10 ^ Z.of_nat (S n) -> Z.abs (Z.quot b 10) < 10 ^ Z.of_nat n.
Proof.
  intros H. rewrite Nat2Z.inj_succ, Z.pow_succ_r in H by lia.
  rewrite <- (Z.quot_abs b 10) by lia. change (Z.abs 10) with 10.
  rewrite Z.quot_div_nonneg by lia.
  apply Z.div_lt_upper_bound; lia.
Qed.

Lemma BigIntLog10_loop_fuel (n : nat) : forall b c m,
  Z.abs b < 10 ^ Z.of_nat n ->
  BigIntLog10_loop (n + m) b c = BigIntLog10_loop n b c.
Proof.
  induction n as [|n IH]; intros b c m H.
  - assert (b = 0) by (cbn in H; lia). subst b.
    destruct m; reflexivity.
  - cbn [Nat.add BigIntLog10_loop].
    destruct (Exact.Abs b >? 10); [|reflexivity].
    apply IH, quot10_bound, H.
Qed.

Lemma displayLoop_fuel (n : nat) : forall b s m,
  Z.abs b < 10 ^ Z.of_nat n ->
  displayLoop (n + m) b s = displayLoop n b s.
Proof.
  induction n as [|n IH]; intros b s m H.
  - assert (b = 0) by (cbn in H; lia). subst b.
    destruct m; reflexivity.
  - cbn [Nat.add displayLoop].
    destruct (b >? 0); [|reflexivity].
    apply IH, quot10_bound, H.
Qed.

Lemma floorLog10_loop_fuel (n : nat) : forall b c m,
  Z.abs b < 10 ^ Z.of_nat n ->
  floorLog10_loop (n + m) b c = floorLog10_loop n b c.
Proof.
  induction n as [|n IH]; intros b c m H.
  - assert (b = 0) by (cbn in H; lia). subst b.
    destruct m; reflexivity.
  - cbn [Nat.add floorLog10_loop].
    destruct (Z.ltb_spec b 10); [reflexivity|].
    apply IH.
    rewrite <- Z.quot_div_nonneg by lia. apply quot10_bound, H.
Qed.

(** More fuel than [log10_fuel] never changes what the three decimal
    loops compute: they leave by their own tests. *)
Lemma decimal_loops_terminate (b : Z) (m : nat) :
  BigIntLog10_loop (log10_fuel b + m) b 0 = BigIntLog10 b /\
  displayLoop (log10_fuel b + m) b EmptyString = displayLoop (log10_fuel b) b EmptyString /\
  floorLog10_loop (log10_fuel b + m) b 0 = floorLog10 b.
Proof.
  pose proof (log10_fuel_bound b) as H.
  split; [|split].
  - apply BigIntLog10_loop_fuel, H.
  - apply displayLoop_fuel, H.
  - apply floorLog10_loop_fuel, H.
Qed.

(** ** Objects *)
Section JsObjectFacts.
Context {A : Type}.
Implicit Types (o : Obj A) (k : string) (v : A).

Lemma objGet_objReplace o k v k' :
  objGet (objReplace k v o) k' =
  if String.eqb k k' then
    match objGet o k with Some _ => Some v | None => None end
  else objGet o k'.
Proof.
  induction o as [|[k0 v0] o IH]; cbn [objReplace objGet].
  - destruct (String.eqb k k'); reflexivity.
  - destruct (String.eqb_spec k0 k) as [->|Hk0]; cbn [objGet].
    + destruct (String.eqb_spec k k'); reflexivity.
    + rewrite IH.
      destruct (String.eqb_spec k0 k') as [->|Hk0'];
        destruct (String.eqb_spec k k'); congruence.
Qed.

Lemma objGet_objInsertIndex n o k v k' :
  objGet o k = None ->
  objGet (objInsertIndex n k v o) k' =
  if String.eqb k k' then Some v else objGet o k'.
Proof.
  induction o as [|[k0 v0] o IH]; cbn [objInsertIndex objGet]; intros Hn.
  - reflexivity.
  - destruct (String.eqb_spec k0 k) as [->|Hk0]; [discriminate|].
    destruct (arrayIndex k0) as [n'|]; [destruct (n <? n')%N|];
      cbn [objGet]; try reflexivity.
    rewrite (IH Hn).
    destruct (String.eqb_spec k0 k') as [->|]; [|reflexivity].
    destruct (String.eqb_spec k k'); [congruence|reflexivity].
Qed.

Lemma objGet_app_new o k v k' :
  objGet o k = None ->
  objGet (o ++ [(k, v)]) k' =
  if String.eqb k k' then Some v else objGet o k'.
Proof.
  induction o as [|[k0 v0] o IH]; cbn [app objGet]; intros Hn.
  - reflexivity.
  - destruct (String.eqb_spec k0 k) as [->|Hk0]; [discriminate|].
    rewrite (IH Hn).
    destruct (String.eqb_spec k0 k') as [->|]; [|reflexivity].
    destruct (String.eqb_spec k k'); [congruence|reflexivity].
Qed.

(** Reading after an assignment. *)
Lemma objGet_objSet o k v k' :
  objGet (objSet k v o) k' = if String.eqb k k' then Some v else objGet o k'.
Proof.
  unfold objSet. destruct (objGet o k) as [v0|] eqn:E.
  - rewrite objGet_objReplace, E. reflexivity.
  - destruct (arrayIndex k).
    + apply objGet_objInsertIndex, E.
    + apply objGet_app_new, E.
Qed.

Lemma objGet_objSet_same o k v : objGet (objSet k v o) k = Some v.
Proof. rewrite objGet_objSet, String.eqb_refl. reflexivity. Qed.

Lemma objGet_objSet_other o k v k' :
  k <> k' -> objGet (objSet k v o) k' = objGet o k'.
Proof.
  intros H. rewrite objGet_objSet.
  destruct (String.eqb_spec k k'); [contradiction|reflexivity].
Qed.

(** Every key that is enumerated can be read. *)
Lemma objGet_objKeys o k : In k (objKeys o) -> exists v, objGet o k = Some v.
Proof.
  induction o as [|[k0 v0] o IH]; cbn [objKeys map objGet In fst]; [tauto|].
  intros [->|H].
  - rewrite String.eqb_refl. eauto.
  - destruct (String.eqb k0 k); eauto.
Qed.

End JsObjectFacts.

(** ** Loops with invariants *)

Lemma foldM_invariant {S X : Type} (P : S -> Prop) (body : S -> X -> option S)
      (xs : list X) :
  (forall s x, In x xs -> P s -> exists s', body s x = Some s' /\ P s') ->
  forall s, P s -> exists s', foldM body xs s = Some s' /\ P s'.
Proof.
  induction xs as [|x xs IH]; intros Hbody s Hs; cbn [foldM].
  - eauto.
  - destruct (Hbody s x (or_introl eq_refl) Hs) as (s1 & -> & H1).
    apply IH; [|assumption].
    intros s0 x0 Hin. apply Hbody. right. assumption.
Qed.

Lemma operationLoop_invariant {S : Type} (P : S -> Prop)
      (body : Operation -> S -> option S) (ig : bool) (ops : list Operation) :
  (forall op s, In op ops -> P s -> exists s', body op s = Some s' /\ P s') ->
  forall s, P s -> exists s', operationLoop body ig ops s = Some s' /\ P s'.
Proof.
  induction ops as [|op ops IH]; intros Hbody s Hs; cbn [operationLoop].
  - eauto.
  - destruct (ig && isSumOrMul op); [eauto|].
    destruct (Hbody op s (or_introl eq_refl) Hs) as (s1 & -> & H1).
    apply IH; [|assumption].
    intros op0 s0 Hin. apply Hbody. right. assumption.
Qed.

(** The [break] leaves the loop at its first operator. *)
Lemma operationLoop_break {S : Type} (body : Operation -> S -> option S)
      (op : Operation) (ops : list Operation) (s : S) :
  isSumOrMul op = true -> operationLoop body true (op :: ops) s = Some s.
Proof. intros H. cbn [operationLoop]. rewrite H. reflexivity. Qed.

(** ** Invariants of the search *)

Lemma digitString_noF (m : Z) (s : string) : noF (digitString m ++ s).
Proof.
  destruct m as [|p|p]; try (cbn; discriminate).
  do 4 (destruct p as [p|p|]; try (cbn; discriminate)).
Qed.

Lemma displayLoop_noF (fuel : nat) : forall Int s, noF s -> noF (displayLoop fuel Int s).
Proof.
  induction fuel as [|fuel IH]; intros Int s Hs; cbn [displayLoop]; [assumption|].
  destruct (Int >? 0); [|assumption].
  apply IH, digitString_noF.
Qed.

Lemma displayInt_noF (z : Z) : noF (displayInt z).
Proof.
  unfold displayInt. destruct (z =? 0); [cbn; discriminate|].
  destruct (z <? 0).
  - cbn. discriminate.
  - cbn [append]. apply displayLoop_noF. exact I.
Qed.

Lemma float_key_not_decimal (fc z : Z) :
  ("float" ++ displayInt fc)%string <> displayInt z.
Proof.
  intros E. pose proof (displayInt_noF z) as H. rewrite <- E in H.
  cbn in H. congruence.
Qed.

Lemma includes_false (known : list string) (d : string) :
  includes known d = false -> ~ In d known.
Proof.
  unfold includes. intros H Hin.
  assert (existsb (String.eqb d) known = true).
  { apply existsb_exists. exists d. split; [assumption|apply String.eqb_refl]. }
  congruence.
Qed.

Lemma display_Str (e : Exact) (d : string) :
  display e = Str d -> d = displayInt (num e).
Proof.
  unfold display. destruct (_ || _); [discriminate|]. intros [= <-]. reflexivity.
Qed.

Section LevelInvariant.

Variables (k : nat) (known0 : list string).

Lemma levelInv_float T known fc new e :
  levelInv k known0 T known ->
  evaluate new = Value e -> 0 < den e -> display e = FloatFlag ->
  operationCount new = k ->
  levelInv k known0 (objSet ("float" ++ displayInt fc)%string new T) known.
Proof.
  intros (HK & HS & HU & HI & HD) Hev Hden Hdisp Hcount.
  repeat split; try assumption.
  - intros key t. rewrite objGet_objSet.
    destruct (String.eqb_spec ("float" ++ displayInt fc)%string key) as [<-|_].
    + intros [= <-]. exists e. auto.
    + apply HK.
  - intros key t e'. rewrite objGet_objSet.
    destruct (String.eqb_spec ("float" ++ displayInt fc)%string key) as [<-|_].
    + intros [= <-] Hev' Hd'. congruence.
    + apply HS.
  - intros key Hin. rewrite objGet_objSet.
    destruct (String.eqb_spec ("float" ++ displayInt fc)%string key) as [<-|_].
    + destruct (HD _ (HI _ Hin)) as [z Hz].
      exfalso. exact (float_key_not_decimal fc z Hz).
    + apply HU, Hin.
Qed.

Lemma levelInv_integer T known new e d :
  levelInv k known0 T known ->
  evaluate new = Value e -> 0 < den e -> display e = Str d ->
  operationCount new = k -> ~ In d known ->
  levelInv k known0 (objSet d new T)
           (if isComplete new then known ++ [d] else known).
Proof.
  intros (HK & HS & HU & HI & HD) Hev Hden Hdisp Hcount Hnew.
  repeat split.
  - intros key t. rewrite objGet_objSet.
    destruct (String.eqb_spec d key) as [<-|_].
    + intros [= <-]. exists e. auto.
    + apply HK.
  - intros key t e'. rewrite objGet_objSet.
    destruct (String.eqb_spec d key) as [<-|_].
    + intros [= <-] _ _ Hc. rewrite Hc. apply in_or_app. right. left. reflexivity.
    + intros H1 H2 H3 H4. pose proof (HS _ _ _ H1 H2 H3 H4).
      destruct (isComplete new); [apply in_or_app; left|]; assumption.
  - intros key Hin. rewrite objGet_objSet.
    destruct (String.eqb_spec d key) as [<-|_].
    + exfalso. apply Hnew, HI, Hin.
    + apply HU, Hin.
  - intros key Hin. pose proof (HI _ Hin).
    destruct (isComplete new); [apply in_or_app; left|]; assumption.
  - intros key Hin.
    assert (In key known \/ key = d) as [H | ->].
    { destruct (isComplete new); [|left; assumption].
      apply in_app_or in Hin. destruct Hin as [H|[H|[]]]; auto. }
    + apply HD, H.
    + exists (num e). apply display_Str, Hdisp.
Qed.

End LevelInvariant.

(** The four operators of [getExpression_version3] on operands with a
    positive denominator never raise: they yield a value with a positive
    denominator, or the error flag of a division by zero. *)
Lemma Operations_version3 (op : Operation) (a b : Exact) :
  In op OperationList_version3 -> 0 < den a -> 0 < den b ->
  Operations op a b = ErrorFlag \/
  exists e, Operations op a b = Value e /\ 0 < den e.
Proof.
  intros Hop Ha Hb.
  destruct op; cbn [Operations].
  - destruct (plus_reduced a b Ha Hb) as (r & -> & [Hr _] & _). eauto.
  - destruct (minus_reduced a b Ha Hb) as (r & -> & [Hr _] & _). eauto.
  - destruct (times_reduced a b Ha Hb) as ([Hr _] & _). eauto.
  - destruct (Z.eq_dec (num b) 0) as [E|E].
    + left. unfold Exact.over. rewrite E. reflexivity.
    + destruct (over_reduced a b Ha E) as (r & -> & [Hr _] & _). eauto.
  - exfalso. cbn in Hop. intuition discriminate.
Qed.

Lemma attempt_invariant (N ops : nat) (known0 : list string)
      (L R : Term) (op : Operation) (st : Search) :
  In op OperationList_version3 ->
  (exists a, evaluate L = Value a /\ 0 < den a) ->
  (exists b, evaluate R = Value b /\ 0 < den b) ->
  S (operationCount L + operationCount R) = ops ->
  levelInv ops known0 (table st) (knownNumbers st) ->
  exists st', attempt N ops L R op st = Some st' /\
              levelInv ops known0 (table st') (knownNumbers st').
Proof.
  intros Hop (a & HL & Ha) (b & HR & Hb) Hcount Hinv.
  assert (Hnew : evaluate (Expression2 L op R) = Operations op a b).
  { cbn [evaluate]. rewrite HL, HR. reflexivity. }
  assert (Hc : operationCount (Expression2 L op R) = ops) by exact Hcount.
  unfold attempt. cbv zeta.
  destruct (negb (end_ L =? start R)); [|eauto].
  rewrite Hnew.
  destruct (Operations_version3 op a b Hop Ha Hb) as [E|(e & E & He)];
    rewrite E in Hnew |- *; [eauto|].
  destruct (display e) as [|d] eqn:Hd.
  - destruct (ops <? N)%nat; [|eauto].
    eexists. split; [reflexivity|]. cbn [table knownNumbers].
    apply levelInv_float with (e := e); assumption.
  - destruct (includes (knownNumbers st) d) eqn:Hin; cbn [negb andb]; [eauto|].
    destruct (String.length d <? 20)%nat; [|eauto].
    eexists. split; [reflexivity|]. cbn [table knownNumbers complete].
    destruct (isComplete (Expression2 L op R) || (ops <? N)%nat) eqn:Hset.
    + apply levelInv_integer with (e := e); try assumption.
      apply includes_false, Hin.
    + apply orb_false_elim in Hset. destruct Hset as [-> _]. assumption.
Qed.

Lemma compositionPair_from_sum (Num i : nat) (c : nat * nat) :
  (i <= Num)%nat -> In c (compositionPair_from Num i) -> (fst c + snd c = Num)%nat.
Proof.
  induction i as [|i IH]; cbn [compositionPair_from In]; intros Hi [<-|H];
    cbn [fst snd]; try lia; try contradiction.
  apply IH; [lia|assumption].
Qed.

Lemma compositionPair_sum (Num : nat) (c : nat * nat) :
  In c (compositionPair Num) -> (fst c + snd c = Num)%nat.
Proof. apply compositionPair_from_sum. lia. Qed.

Lemma compose_invariant (N ops : nat) (known0 : list string)
      (List : list (Obj Term)) (st : Obj Term * list string) (c : nat * nat) :
  (forall i lvl, nth_error List i = Some lvl -> keyed i lvl) ->
  Datatypes.length List = ops -> S (fst c + snd c) = ops ->
  levelInv ops known0 (fst st) (snd st) ->
  exists st', compose N ops List st c = Some st' /\
              levelInv ops known0 (fst st') (snd st').
Proof.
  intros Hkeyed Hlen Hsum Hinv. unfold compose.
  destruct (nth_error List (fst c)) as [LeftNumbers|] eqn:EL;
    [|apply nth_error_None in EL; lia].
  destruct (nth_error List (snd c)) as [RightNumbers|] eqn:ER;
    [|apply nth_error_None in ER; lia].
  set (P := fun s : Search => levelInv ops known0 (table s) (knownNumbers s)).
  match goal with
  | |- context [foldM ?f ?xs ?s0] =>
      destruct (foldM_invariant P f xs) with (s := s0) as (s' & -> & Hs')
  end.
  - intros s LeftIndex HinL Hs.
    apply foldM_invariant; [|assumption].
    intros s1 RightIndex HinR Hs1.
    destruct (objGet_objKeys _ _ HinL) as [LeftExpression HLe].
    destruct (objGet_objKeys _ _ HinR) as [RightExpression HRe].
    rewrite HLe, HRe.
    destruct (Hkeyed _ _ EL _ _ HLe) as (a & Ha & Hda & _ & Hca).
    destruct (Hkeyed _ _ ER _ _ HRe) as (b & Hb & Hdb & _ & Hcb).
    apply operationLoop_invariant; [|assumption].
    intros op s2 Hop Hs2.
    apply attempt_invariant with (known0 := known0); eauto.
    rewrite Hca, Hcb. assumption.
  - exact Hinv.
  - eexists. split; [reflexivity|]. exact Hs'.
Qed.

Lemma settled_incl (T : Obj Term) (known known' : list string) :
  incl known known' -> settled T known -> settled T known'.
Proof. intros Hi HS key t e H1 H2 H3 H4. apply Hi. eapply HS; eassumption. Qed.

Lemma untouched_incl (T : Obj Term) (known known' : list string) :
  incl known known' -> untouched T known' -> untouched T known.
Proof. intros Hi HU key H. apply HU, Hi, H. Qed.

Lemma level_invariant (N ops : nat) (List : list (Obj Term)) (known : list string) :
  (1 <= ops)%nat -> Datatypes.length List = ops -> searchInv List known ->
  exists T known', level N ops (List, known) = Some (List ++ [T], known') /\
                   searchInv (List ++ [T]) known'.
Proof.
  intros Hops Hlen (Hlv & Hfin & Hk0 & Hdec & H0).
  unfold level. cbn [fst snd].
  set (P := fun st : Obj Term * list string => levelInv ops known (fst st) (snd st)).
  destruct (foldM_invariant P (compose N ops List) (compositionPair (ops - 1)))
    with (s := (@nil (string * Term), known)) as ([T known'] & -> & HT).
  - intros st c Hc Hst. apply compose_invariant; try assumption.
    + intros i lvl Hi. apply (Hlv i lvl Hi).
    + apply compositionPair_sum in Hc. lia.
  - repeat split; try assumption.
    + intros key t. cbn. discriminate.
    + intros key t e. cbn. discriminate.
    + apply incl_refl.
  - exists T, known'. split; [reflexivity|].
    destruct HT as (HK & HS & HU & HI & HD). cbn [fst snd] in *.
    repeat split.
    + destruct (Nat.lt_ge_cases i (Datatypes.length List)) as [Hi|Hi].
      * rewrite nth_error_app1 in H by assumption. apply (Hlv i lvl H).
      * rewrite nth_error_app2 in H by assumption.
        destruct (i - Datatypes.length List)%nat as [|n] eqn:En;
          [|destruct n; discriminate].
        cbn in H. injection H as <-. replace i with ops by lia. assumption.
    + destruct (Nat.lt_ge_cases i (Datatypes.length List)) as [Hi|Hi].
      * rewrite nth_error_app1 in H by assumption.
        apply settled_incl with (known := known); [assumption|].
        apply (Hlv i lvl H).
      * rewrite nth_error_app2 in H by assumption.
        destruct (i - Datatypes.length List)%nat as [|n] eqn:En;
          [|destruct n; discriminate].
        cbn in H. injection H as <-. assumption.
    + intros Hi1. destruct (Nat.lt_ge_cases i (Datatypes.length List)) as [Hi|Hi].
      * rewrite nth_error_app1 in H by assumption. apply (Hlv i lvl H), Hi1.
      * rewrite nth_error_app2 in H by assumption.
        destruct (i - Datatypes.length List)%nat as [|n] eqn:En;
          [|destruct n; discriminate].
        cbn in H. injection H as <-.
        apply untouched_incl with (known' := known); assumption.
    + intros i j li lj Hij Hi Hj.
      assert (Hjl : (j < Datatypes.length (List ++ [T]))%nat)
        by (apply nth_error_Some; congruence).
      rewrite length_app in Hjl. cbn in Hjl.
      rewrite nth_error_app1 in Hi by lia.
      destruct (Nat.lt_ge_cases j (Datatypes.length List)) as [Hj'|Hj'].
      * rewrite nth_error_app1 in Hj by assumption.
        apply (Hfin i j li lj Hij Hi Hj).
      * rewrite nth_error_app2 in Hj by assumption.
        replace (j - Datatypes.length List)%nat with O in Hj by lia.
        cbn in Hj. injection Hj as <-.
        intros key t e H1 H2 H3 H4. apply HU.
        destruct (Hlv i li Hi) as (_ & HSi & _).
        apply (HSi key t e H1 H2 H3 H4).
    + intros key Hin. apply HI, Hk0, Hin.
    + assumption.
    + rewrite nth_error_app1 by lia. assumption.
Qed.

Lemma objGet_In {A : Type} (o : Obj A) (k : string) (v : A) :
  objGet o k = Some v -> In (k, v) o.
Proof.
  induction o as [|[k0 v0] o IH]; cbn [objGet In]; [discriminate|].
  destruct (String.eqb_spec k0 k) as [->|_].
  - intros [= ->]. left. reflexivity.
  - intros H. right. apply IH, H.
Qed.

Lemma searchInv_initial : searchInv List0 knownNumbers0.
Proof.
  repeat split.
  - destruct i as [|i]; [|destruct i; discriminate].
    cbn in H. injection H as <-.
    intros key t Hget. apply objGet_In in Hget. cbn in Hget.
    repeat (destruct Hget as [[= <- <-]|Hget];
            [eexists; split; [reflexivity|];
             split; [reflexivity|]; split; [right; reflexivity|reflexivity]|]).
    contradiction.
  - destruct i as [|i]; [|destruct i; discriminate].
    cbn in H. injection H as <-.
    intros key t e Hget Hev Hd Hc. apply objGet_In in Hget. cbn in Hget.
    repeat (destruct Hget as [[= <- <-]|Hget];
            [first [discriminate Hc | cbn; tauto]|]).
    contradiction.
  - destruct i as [|i]; [lia|destruct i; discriminate].
  - intros i j li lj Hij Hi Hj.
    assert (j < Datatypes.length List0)%nat by (apply nth_error_Some; congruence).
    cbn in H. lia.
  - apply incl_refl.
  - intros key [<-|[<-|[]]]; [exists 69|exists (-69)]; reflexivity.
Qed.

Lemma levels_from_invariant (N remaining : nat) :
  forall ops List known,
    (1 <= ops)%nat -> Datatypes.length List = ops -> searchInv List known ->
    exists List' known',
      levels_from N remaining ops (List, known) = Some (List', known') /\
      Datatypes.length List' = (ops + remaining)%nat /\ searchInv List' known'.
Proof.
  induction remaining as [|remaining IH]; intros ops List known Hops Hlen Hinv.
  - exists List, known. split; [reflexivity|]. split; [lia|assumption].
  - cbn [levels_from].
    destruct (level_invariant N ops List known Hops Hlen Hinv)
      as (T & known' & -> & Hinv').
    destruct (IH (S ops) (List ++ [T]) known') as (L' & k' & HL & Hl & Hi).
    + lia.
    + rewrite length_app. cbn. lia.
    + assumption.
    + exists L', k'. split; [assumption|]. split; [lia|assumption].
Qed.

(** The loop over [operations] never raises; it leaves [N + 1] levels. *)
Lemma levels_returns (N : nat) :
  exists List known,
    levels N = Some (List, known) /\ Datatypes.length List = S N /\
    searchInv List known.
Proof.
  destruct (levels_from_invariant N N 1 List0 knownNumbers0)
    as (L & k & HL & Hl & Hi);
    [lia|reflexivity|apply searchInv_initial|].
  exists L, k. split; [assumption|]. split; assumption.
Qed.

Lemma display_newExact (V : Z) : display (newExact V) = Str (displayInt V).
Proof. reflexivity. Qed.

Lemma project_complete (lvl : Obj Term) (key s : string) :
  objGet (project lvl) key = Some s ->
  exists t, objGet lvl key = Some t /\ complete t = true /\ s = termDisplay t.
Proof.
  unfold project.
  set (P := fun Obj_ : Obj string => forall key s, objGet Obj_ key = Some s ->
     exists t, objGet lvl key = Some t /\ complete t = true /\ s = termDisplay t).
  enough (H : forall keys Obj_, P Obj_ ->
    P (fold_left (fun Obj_ Num =>
         match objGet lvl Num with
         | Some t =>
             if complete t && negb (String.eqb (termDisplay t) EmptyString)
             then objSet Num (termDisplay t) Obj_ else Obj_
         | None => Obj_
         end) keys Obj_)).
  { apply H. intros k0 s0. cbn. discriminate. }
  induction keys as [|Num keys IH]; intros Obj_ HP; cbn [fold_left]; [assumption|].
  apply IH.
  destruct (objGet lvl Num) as [t|] eqn:Et; [|assumption].
  destruct (complete t) eqn:Ec; cbn [andb]; [|assumption].
  destruct (negb _); [|assumption].
  intros k0 s0. rewrite objGet_objSet.
  destruct (String.eqb_spec Num k0) as [<-|_]; [|apply HP].
  intros [= <-]. eauto.
Qed.

(** ** What the search keeps *)

(** A term kept at level [k] has exactly [k] operators. *)
Lemma retained_operation_count (N : nat) (List : list (Obj Term))
      (known : list string) (k : nat) (lvl : Obj Term) (key : string) (t : Term) :
  levels N = Some (List, known) -> nth_error List k = Some lvl ->
  objGet lvl key = Some t -> operationCount t = k.
Proof.
  intros Hrun Hk Hget.
  destruct (levels_returns N) as (L & kn & HL & _ & (Hlv & _)).
  rewrite Hrun in HL. injection HL as <- <-.
  destruct (Hlv _ _ Hk) as (Hkeyed & _).
  destruct (Hkeyed _ _ Hget) as (e & _ & _ & _ & Hc). exact Hc.
Qed.

(** A composition whose left level is below its right level changes
    neither the table nor [knownNumbers]: the [break] is taken at the
    first operator for every pair of terms. *)
Lemma compose_pruned (N ops : nat) (List : list (Obj Term))
      (st : Obj Term * list string) (c : nat * nat) :
  (fst c < snd c)%nat ->
  nth_error List (fst c) <> None -> nth_error List (snd c) <> None ->
  compose N ops List st c = Some st.
Proof.
  intros Hlt HL HR. unfold compose.
  destruct (nth_error List (fst c)) as [LeftNumbers|]; [|contradiction].
  destruct (nth_error List (snd c)) as [RightNumbers|]; [|contradiction].
  apply Nat.ltb_lt in Hlt. rewrite Hlt.
  set (s0 := {| table := fst st; knownNumbers := snd st; floatCounter := 0 |}).
  match goal with
  | |- context [foldM ?f ?xs s0] =>
      destruct (foldM_invariant (fun s => s = s0) f xs) with (s := s0)
        as (s' & -> & ->)
  end.
  - intros s LeftIndex HinL ->.
    apply foldM_invariant; [|reflexivity].
    intros s RightIndex HinR ->.
    destruct (objGet_objKeys _ _ HinL) as [l ->].
    destruct (objGet_objKeys _ _ HinR) as [r ->].
    exists s0. split; reflexivity.
  - reflexivity.
  - destruct st. reflexivity.
Qed.

(** ** Exponentiation: the value returned *)

Lemma copy_eq (e : Exact) : Exact.copy e = e.
Proof. destruct e. reflexivity. Qed.

Lemma powLoop_spec (n : nat) (This : Exact) :
  0 < den This ->
  forall (j : nat) (Res Res' : Exact),
    0 < den Res ->
    num Res * den This ^ Z.of_nat j = num This ^ Z.of_nat j * den Res ->
    ExactPow.powLoop n This Res = Some Res' ->
    0 < den Res' /\
    num Res' * den This ^ Z.of_nat (j + n) = num This ^ Z.of_nat (j + n) * den Res'.
Proof.
  intros HT. induction n as [|n IH]; intros j Res Res' HR Hinv; cbn [ExactPow.powLoop].
  - intros [= <-]. rewrite Nat.add_0_r. auto.
  - destruct (ExactPow.guard (Exact.times Res This)); [discriminate|].
    intros Hloop.
    destruct (times_reduced Res This HR HT) as ([Hd _] & _ & Hv).
    replace (j + S n)%nat with (S j + n)%nat by lia.
    apply (IH (S j) (Exact.times Res This) Res' Hd); [|assumption].
    rewrite Nat2Z.inj_succ, !Z.pow_succ_r by lia.
    set (p := Exact.times Res This) in *.
    apply Z.mul_reg_r with (p := den Res); [lia|].
    replace (num p * (den This * den This ^ Z.of_nat j) * den Res)
      with (num p * (den Res * den This) * den This ^ Z.of_nat j) by ring.
    rewrite Hv.
    replace (num Res * num This * den p * den This ^ Z.of_nat j)
      with (num Res * den This ^ Z.of_nat j * num This * den p) by ring.
    rewrite Hinv. ring.
Qed.

Lemma toThe_value_spec (a b : Exact) (r : Exact) :
  root b = 1 ->
  0 < den (toTheBase a b) ->
  ExactPow.toThe a b = Value r ->
  let n := Z.max 1 (Z.abs (num b)) in
  Z.abs (num b) <= 100 /\ reduced r /\ root r = den b /\
  num r * den (toTheBase a b) ^ n = num (toTheBase a b) ^ n * den r.
Proof.
  intros Hroot HT. unfold ExactPow.toThe. rewrite Hroot.
  change (negb (1 =? 1)) with false. cbv iota.
  fold (toTheBase a b). set (This := toTheBase a b) in *.
  rewrite copy_eq, Abs_abs.
  destruct (Z.gtb_spec (Z.abs (num b)) 100) as [|Hle]; [discriminate|].
  destruct (ExactPow.powLoop _ This This) as [Res|] eqn:Hloop; [|discriminate].
  assert (H1 : num This * den This ^ Z.of_nat 1 = num This ^ Z.of_nat 1 * den This).
  { change (Z.of_nat 1) with 1. rewrite !Z.pow_1_r. ring. }
  destruct (powLoop_spec _ This HT 1%nat This Res HT H1 Hloop) as [HdR HvR].
  destruct (reduce_spec (num Res) (den Res) (den b) HdR) as (Hg & Hred & Hv).
  destruct (Z.eqb_spec (Exact.gcd (Exact.Abs (num Res)) (den Res)) 0); [lia|].
  intros [= <-]. cbv zeta. split; [assumption|]. split; [exact Hred|].
  split; [reflexivity|]. cbn [num den] in *.
  set (g := Exact.gcd (Exact.Abs (num Res)) (den Res)) in *.
  replace (Z.of_nat (1 + Z.to_nat (Z.abs (num b) - 1)))
    with (Z.max 1 (Z.abs (num b))) in HvR by lia.
  set (m := Z.max 1 (Z.abs (num b))) in *.
  apply Z.mul_reg_r with (p := den Res); [lia|].
  replace (Z.quot (num Res) g * den This ^ m * den Res)
    with (Z.quot (num Res) g * den Res * den This ^ m) by ring.
  rewrite Hv.
  replace (num Res * Z.quot (den Res) g * den This ^ m)
    with (num Res * den This ^ m * Z.quot (den Res) g) by ring.
  rewrite HvR. ring.
Qed.

Lemma toThe_flags (a b : Exact) :
  root b = 1 -> 0 < den (toTheBase a b) ->
  ExactPow.toThe a b = OverflowFlag \/ exists r, ExactPow.toThe a b = Value r.
Proof.
  intros Hroot HT. unfold ExactPow.toThe. rewrite Hroot.
  change (negb (1 =? 1)) with false. cbv iota.
  fold (toTheBase a b). set (This := toTheBase a b) in *.
  rewrite copy_eq.
  destruct (Exact.Abs (num b) >? 100); [left; reflexivity|].
  destruct (ExactPow.powLoop _ This This) as [Res|] eqn:Hloop; [|left; reflexivity].
  assert (H1 : num This * den This ^ Z.of_nat 1 = num This ^ Z.of_nat 1 * den This).
  { change (Z.of_nat 1) with 1. rewrite !Z.pow_1_r. ring. }
  destruct (powLoop_spec _ This HT 1%nat This Res HT H1 Hloop) as [HdR HvR].
  destruct (reduce_spec (num Res) (den Res) (den b) HdR) as (Hg & _).
  destruct (Z.eqb_spec (Exact.gcd (Exact.Abs (num Res)) (den Res)) 0); [lia|].
  right. eauto.
Qed.

Lemma BigIntLog10_loop_bounds (fuel : nat) : forall n c,
  Z.abs n < 10 ^ Z.of_nat fuel -> 1 <= Z.abs n ->
  let k := BigIntLog10_loop fuel n c - c in
  0 <= k /\ 10 ^ k <= Z.abs n < 11 * 10 ^ k.
Proof.
  induction fuel as [|fuel IH]; intros n c Hf Hn.
  - cbn in Hf. lia.
  - cbn [BigIntLog10_loop]. rewrite Abs_abs.
    destruct (Z.gtb_spec (Z.abs n) 10) as [Hgt|Hle].
    + pose proof (quot10_bound n fuel Hf) as Hq.
      assert (Hqa : Z.abs (Z.quot n 10) = Z.abs n / 10).
      { rewrite <- (Z.quot_abs n 10) by lia. change (Z.abs 10) with 10.
        apply Z.quot_div_nonneg; lia. }
      assert (Hq1 : 1 <= Z.abs (Z.quot n 10)).
      { rewrite Hqa. apply Z.div_le_lower_bound; lia. }
      specialize (IH (Z.quot n 10) (c + 1) Hq Hq1). cbv zeta in IH |- *.
      set (k' := BigIntLog10_loop fuel (Z.quot n 10) (c + 1) - (c + 1)) in *.
      replace (BigIntLog10_loop fuel (Z.quot n 10) (c + 1) - c) with (k' + 1) by lia.
      destruct IH as (Hk & Hlo & Hhi).
      rewrite Z.pow_add_r, Z.pow_1_r by lia.
      rewrite Hqa in Hlo, Hhi.
      pose proof (Z.div_mod (Z.abs n) 10 ltac:(lia)).
      pose proof (Z.mod_pos_bound (Z.abs n) 10 ltac:(lia)).
      split; [lia|]. split; lia.
    + cbv zeta. replace (c - c) with 0 by lia. cbn. lia.
Qed.

(** ** Exponentiation that does not overflow *)

Lemma quot_shrinks (a g : Z) : 0 < g -> Z.abs (Z.quot a g) <= Z.abs a.
Proof.
  intros Hg. rewrite <- (Z.quot_abs a g) by lia.
  rewrite Z.quot_div_nonneg by lia.
  apply Z.div_le_upper_bound; nia.
Qed.

Lemma times_bounded (a b : Exact) :
  0 < den a -> 0 < den b ->
  Z.abs (num (Exact.times a b)) <= Z.abs (num a) * Z.abs (num b) /\
  0 < den (Exact.times a b) <= den a * den b.
Proof.
  intros Ha Hb. unfold Exact.times.
  destruct (reduce_spec (num a * num b) (den a * den b) 1 ltac:(nia))
    as (Hg & [Hd _] & _).
  destruct (Z.eqb_spec (Exact.gcd (Exact.Abs (num a * num b)) (den a * den b)) 0)
    as [E|_]; [lia|].
  cbn [num den] in *. rewrite <- Z.abs_mul.
  split; [apply quot_shrinks; assumption|]. split; [assumption|].
  pose proof (quot_shrinks (den a * den b) _ Hg). nia.
Qed.

Lemma BigIntLog10_small (n : Z) :
  Z.abs n < 10 ^ 21 -> 0 <= BigIntLog10 n <= 20.
Proof.
  intros Hn. destruct (Z.eq_dec n 0) as [->|Hz]; [vm_compute; split; discriminate|].
  pose proof (BigIntLog10_loop_bounds (log10_fuel n) n 0 (log10_fuel_bound n)
                ltac:(lia)) as H.
  cbv zeta in H. rewrite Z.sub_0_r in H. fold (BigIntLog10 n) in H.
  destruct H as (Hk & Hlo & _). split; [assumption|].
  assert (10 ^ BigIntLog10 n < 10 ^ 21) by lia.
  apply Z.pow_lt_mono_r_iff in H; lia.
Qed.

Lemma guard_small (Res : Exact) :
  Z.abs (num Res) < 10 ^ 21 -> Z.abs (den Res) < 10 ^ 21 ->
  ExactPow.guard Res = false.
Proof.
  intros Hn Hd. unfold ExactPow.guard.
  pose proof (BigIntLog10_small _ Hn). pose proof (BigIntLog10_small _ Hd).
  destruct (Z.gtb_spec (Z.abs (BigIntLog10 (num Res) - BigIntLog10 (den Res))) 20);
    [lia|reflexivity].
Qed.

(** The loop of [toThe] is left by its end when the powers of the
    numerator and of the denominator of [This] stay below 10^21. *)
Lemma powLoop_returns (N : nat) (This : Exact) :
  0 < den This ->
  (forall k : nat, (2 <= k <= N)%nat ->
     Z.abs (num This) ^ Z.of_nat k < 10 ^ 21 /\ den This ^ Z.of_nat k < 10 ^ 21) ->
  forall (n j : nat) (Res : Exact),
    (1 <= j)%nat -> (j + n <= N)%nat ->
    0 < den Res ->
    Z.abs (num Res) <= Z.abs (num This) ^ Z.of_nat j ->
    den Res <= den This ^ Z.of_nat j ->
    exists Res', ExactPow.powLoop n This Res = Some Res'.
Proof.
  intros HT HB. induction n as [|n IH]; intros j Res Hj1 Hj HR Hn Hd;
    cbn [ExactPow.powLoop]; [eauto|].
  destruct (times_bounded Res This HR HT) as (Hn1 & Hd0 & Hd1).
  assert (Hn2 : Z.abs (num (Exact.times Res This)) <= Z.abs (num This) ^ Z.of_nat (S j)).
  { rewrite Nat2Z.inj_succ, Z.pow_succ_r by lia.
    pose proof (Z.abs_nonneg (num This)). nia. }
  assert (Hd2 : den (Exact.times Res This) <= den This ^ Z.of_nat (S j)).
  { rewrite Nat2Z.inj_succ, Z.pow_succ_r by lia. nia. }
  destruct (HB (S j) ltac:(lia)) as [B1 B2].
  rewrite guard_small by lia.
  apply (IH (S j)); (lia || assumption).
Qed.

Lemma pow_below (x n k : Z) :
  0 <= x -> 1 <= k <= n -> x ^ n < 10 ^ 21 -> x ^ k < 10 ^ 21.
Proof.
  intros Hx Hk Hn. destruct (Z.eq_dec x 0) as [->|Hz].
  - rewrite Z.pow_0_l by lia. reflexivity.
  - assert (x ^ k <= x ^ n) by (apply Z.pow_le_mono_r; lia). lia.
Qed.

(** [toThe] returns an [Exact] for an exponent with root 1 and a
    numerator of magnitude at most 100 when the power stays small. *)
Lemma toThe_returns (a b : Exact) :
  root b = 1 -> 0 < den (toTheBase a b) -> Z.abs (num b) <= 100 ->
  Z.abs (num (toTheBase a b)) ^ Z.abs (num b) < 10 ^ 21 ->
  den (toTheBase a b) ^ Z.abs (num b) < 10 ^ 21 ->
  exists r, ExactPow.toThe a b = Value r.
Proof.
  intros Hroot HT Hle Bn Bd.
  destruct (toThe_flags a b Hroot HT) as [H|H]; [|assumption].
  exfalso. revert H. unfold ExactPow.toThe. rewrite Hroot.
  change (negb (1 =? 1)) with false. cbv iota.
  fold (toTheBase a b). set (This := toTheBase a b) in *.
  rewrite copy_eq, Abs_abs.
  destruct (Z.gtb_spec (Z.abs (num b)) 100) as [|_]; [lia|].
  destruct (powLoop_returns (Z.to_nat (Z.max 1 (Z.abs (num b)))) This HT) with
    (n := Z.to_nat (Z.abs (num b) - 1)) (j := 1%nat) (Res := This) as [Res ->].
  - intros k Hk. split; apply pow_below with (n := Z.abs (num b));
      (assumption || lia).
  - lia.
  - lia.
  - assumption.
  - change (Z.of_nat 1) with 1. rewrite Z.pow_1_r. lia.
  - change (Z.of_nat 1) with 1. rewrite Z.pow_1_r. lia.
  - destruct (Exact.gcd _ _ =? 0); discriminate.
Qed.

(** * The claims *)

(** C1 (the code departs from the claim).  With [ignoreSumAndMul] set,
    the loop over the operators is left by [break] at its first element
    [+], whatever its body: neither [-] nor [/] nor [**] is attempted, in
    [getExpression_version3] as in [getExpression_version2].  So with
    budget 2 the quotient [(69 / (-6 + 9))], an adjacency-permitted pair
    from levels 0 and 1 that is complete and evaluates to 23, is never
    built: 23 is neither in the level-2 table nor in [knownNumbers]. *)
Theorem pruned_direction_attempts_nothing :
  (forall (S : Type) (body : Operation -> S -> option S) (st : S),
      operationLoop body true OperationList_version3 st = Some st /\
      operationLoop body true OperationList_version2 st = Some st) /\
  (let quotient := Expression2 (Atom2 69) OpOver three in
   negb (end_ (Atom2 69) =? start three) = true /\
   evaluate quotient = Value (newExact 23) /\
   complete quotient = true /\
   exists DisplayList known level1 level2,
     getExpression_version3 2 = Some (ReturnDisplay DisplayList known) /\
     nth_error DisplayList 1 = Some level1 /\
     nth_error DisplayList 2 = Some level2 /\
     objGet level1 "3"%string = Some (termDisplay three) /\
     objGet level2 "23"%string = None /\
     includes known "23"%string = false).
Proof.
  split.
  - intros S body st. split; reflexivity.
  - cbv zeta. repeat (split; [vm_compute; reflexivity|]).
    do 4 eexists. repeat (split; [vm_compute; reflexivity|]).
    vm_compute; reflexivity.
Qed.

(** C2.  For every budget [N]: when a complete term with integer value
    [V] is kept at level [k], no term kept at a later level [k'] has the
    value [V], complete or not. *)
Theorem settled_monotonicity (N : nat) (List : list (Obj Term))
        (known : list string) (k k' : nat) (lk lk' : Obj Term)
        (key key' : string) (t t' : Term) (V : Z) :
  levels N = Some (List, known) ->
  (k < k')%nat ->
  nth_error List k = Some lk -> nth_error List k' = Some lk' ->
  objGet lk key = Some t -> isComplete t = true ->
  evaluate t = Value (newExact V) ->
  objGet lk' key' = Some t' ->
  evaluate t' <> Value (newExact V).
Proof.
  intros Hrun Hlt Hk Hk' Hget Hc Hev Hget' Hev'.
  destruct (levels_returns N) as (L & kn & HL & _ & (Hlv & Hfin & _)).
  rewrite Hrun in HL. injection HL as <- <-.
  destruct (Hlv _ _ Hk) as (Hkeyed & _).
  destruct (Hlv _ _ Hk') as (Hkeyed' & _).
  destruct (Hkeyed _ _ Hget) as (e & He & _ & [Hd|Hd] & _);
    rewrite Hev in He; injection He as <-; [discriminate|].
  destruct (Hkeyed' _ _ Hget') as (e' & He' & _ & [Hd'|Hd'] & _);
    rewrite Hev' in He'; injection He' as <-; [discriminate|].
  rewrite display_newExact in Hd, Hd'.
  injection Hd as Hd. injection Hd' as Hd'. subst key key'.
  pose proof (Hfin k k' lk lk' Hlt Hk Hk' _ _ _ Hget Hev eq_refl Hc) as Hnone.
  congruence.
Qed.

(** With budget 2, 3 is settled at level 1 by [(-6 + 9)]; the term
    [((69 + 69) / 69)] kept at level 2 has another value. *)
Lemma settled_monotonicity_witness :
  evaluate (Expression2 (Expression2 (Atom2 69) OpPlus (Atom2 69)) OpOver (Atom2 69))
  <> Value (newExact 3).
Proof.
  eapply (settled_monotonicity 2 _ _ 1 2 _ _ "3"%string "2"%string three _ 3).
  - vm_compute; reflexivity.
  - lia.
  - vm_compute; reflexivity.
  - vm_compute; reflexivity.
  - vm_compute; reflexivity.
  - vm_compute; reflexivity.
  - vm_compute; reflexivity.
  - vm_compute; reflexivity.
Defined.

(** C3, as stated, fails: with budget 2 the level-2 table has no entry
    for 9, neither among the terms kept nor in the projected output. *)
Lemma nine_not_at_level2 :
  exists DisplayList known List known' level2 table2,
    getExpression_version3 2 = Some (ReturnDisplay DisplayList known) /\
    nth_error DisplayList 2 = Some level2 /\
    objGet level2 "9"%string = None /\
    levels 2 = Some (List, known') /\
    nth_error List 2 = Some table2 /\
    objGet table2 "9"%string = None.
Proof.
  do 6 eexists. repeat (split; [vm_compute; reflexivity|]).
  vm_compute; reflexivity.
Qed.

(** C3, amended.  The product [((-6 + 9) * (-6 + 9))] of the level-1 term
    for 3 with itself evaluates to 9 and is complete, but it has three
    operators, and a term kept at level [k] has exactly [k] operators.
    With budget 2 the value 9 is absent from level 2; with budget 3 it is
    in the level-3 table, where the expression kept is
    [(((6 - 9) * -6) - 9)], met in the composition (2, 0) before the
    product is met in the composition (1, 1). *)
Theorem nine_at_level3 :
  (exists DisplayList known level2,
     getExpression_version3 2 = Some (ReturnDisplay DisplayList known) /\
     nth_error DisplayList 2 = Some level2 /\
     objGet level2 "9"%string = None) /\
  (exists DisplayList known level3,
     getExpression_version3 3 = Some (ReturnDisplay DisplayList known) /\
     nth_error DisplayList 3 = Some level3 /\
     objGet level3 "9"%string = Some (termDisplay nineKept)) /\
  termDisplay nineKept = "(((6 - 9) * -6) - 9)"%string /\
  evaluate nine = Value (newExact 9) /\
  complete nine = true /\
  termDisplay nine = "((-6 + 9) * (-6 + 9))"%string /\
  operationCount nine = 3%nat /\
  (forall N List known k lvl key t,
     levels N = Some (List, known) -> nth_error List k = Some lvl ->
     objGet lvl key = Some t -> operationCount t = k).
Proof.
  split; [do 3 eexists; repeat (split; [vm_compute; reflexivity|]);
          vm_compute; reflexivity|].
  split; [do 3 eexists; repeat (split; [vm_compute; reflexivity|]);
          vm_compute; reflexivity|].
  repeat (split; [vm_compute; reflexivity|]).
  intros N List known k lvl key t. apply retained_operation_count.
Qed.

(** With budget 3 the term kept for 9 at level 3 has three operators. *)
Lemma nine_at_level3_witness : operationCount nineKept = 3%nat.
Proof.
  pose proof nine_at_level3 as (_ & _ & _ & _ & _ & _ & _ & H).
  eapply (H 3%nat _ _ 3%nat _ "9"%string nineKept).
  - vm_compute; reflexivity.
  - vm_compute; reflexivity.
  - vm_compute; reflexivity.
Defined.

(** C4 (the code departs from the claim).  For a negative exponent
    [toThe] takes the inverse of its base without the test for zero that
    [over] makes, so zero to the power -6 is the fraction 1/0.  Version 2
    lists [((69 - 69) ** -6)] first among the non-integers of level 2, and
    at level 3 its attempt joins it with 9 by [+] and lists the sum:
    [plus] returns 1/0, whose denominator is not positive, and so do
    [minus], [times] and [over] on these operands; the sum of 1/0 with
    itself raises, since [plus] divides by a gcd of 0, which only [times]
    tests for.  On operands with positive denominators the four methods
    do return an [Exact] that is reduced ([over] when the divisor is not
    zero, and the error flag when it is). *)
Theorem zero_denominator_not_reduced :
  (exists List known lvl float,
     levels_version2 2 = Some (List, known) /\ nth_error List 2 = Some lvl /\
     objGet lvl "float"%string = Some float /\ nth_error float 0 = Some zeroPower) /\
  evaluate zeroPower = Value (mkExact 1 0 1) /\
  (forall knownNumbers newList float,
     objGet newList "float"%string = Some float ->
     attempt_version2 knownNumbers zeroPower (Atom2 9) OpPlus newList
     = Some (objSet "float"%string
               (float ++ [Expression2 zeroPower OpPlus (Atom2 9)]) newList)) /\
  evaluate (Expression2 zeroPower OpPlus (Atom2 9)) = Value (mkExact 1 0 1) /\
  Exact.plus (mkExact 1 0 1) (newExact 9) = Value (mkExact 1 0 1) /\
  Exact.minus (mkExact 1 0 1) (newExact 9) = Value (mkExact 1 0 1) /\
  Exact.times (mkExact 1 0 1) (newExact 9) = mkExact 1 0 1 /\
  Exact.over (mkExact 1 0 1) (newExact 9) = Value (mkExact 1 0 1) /\
  ~ reduced (mkExact 1 0 1) /\
  Exact.plus (mkExact 1 0 1) (mkExact 1 0 1) = Thrown /\
  (forall a b : Exact,
     0 < den a -> 0 < den b ->
     (exists r, Exact.plus a b = Value r /\ reduced r) /\
     (exists r, Exact.minus a b = Value r /\ reduced r) /\
     reduced (Exact.times a b) /\
     (num b <> 0 -> exists r, Exact.over a b = Value r /\ reduced r) /\
     (num b = 0 -> Exact.over a b = ErrorFlag)).
Proof.
  split.
  { destruct (levels_version2 2) as [[List known]|] eqn:E;
      [|vm_compute in E; discriminate E].
    apply (f_equal (option_map (fun st =>
            match nth_error (fst st) 2 with
            | Some lvl => match objGet lvl "float"%string with
                          | Some float => nth_error float 0
                          | None => None
                          end
            | None => None
            end))) in E.
    cbn [option_map fst] in E.
    destruct (nth_error List 2) as [lvl|] eqn:El;
      [|vm_compute in E; discriminate E].
    destruct (objGet lvl "float"%string) as [float|] eqn:Ef;
      [|vm_compute in E; discriminate E].
    vm_compute in E. injection E as E.
    exists List, known, lvl, float.
    split; [reflexivity|]. split; [exact El|]. split; [exact Ef|].
    symmetry. exact E. }
  split; [vm_compute; reflexivity|].
  split.
  { intros knownNumbers newList float Hf. unfold attempt_version2.
    change (negb (end_ zeroPower =? start (Atom2 9))) with true. cbv iota.
    change (evaluate (Expression2 zeroPower OpPlus (Atom2 9)))
      with (Value (mkExact 1 0 1)).
    change (display (mkExact 1 0 1)) with FloatFlag. cbv iota.
    rewrite Hf. reflexivity. }
  split; [vm_compute; reflexivity|].
  split; [vm_compute; reflexivity|].
  split; [vm_compute; reflexivity|].
  split; [vm_compute; reflexivity|].
  split; [vm_compute; reflexivity|].
  split; [intros [H _]; cbn in H; lia|].
  split; [vm_compute; reflexivity|].
  intros a b Ha Hb.
  split; [destruct (plus_reduced a b Ha Hb) as (r & H & Hr & _); eauto|].
  split; [destruct (minus_reduced a b Ha Hb) as (r & H & Hr & _); eauto|].
  split; [apply (times_reduced a b Ha Hb)|].
  split.
  - intros Hn. destruct (over_reduced a b Ha Hn) as (r & H & Hr & _). eauto.
  - intros E. unfold Exact.over. rewrite E. reflexivity.
Qed.

(** C5.  For a reduced [a] with root 1 and a non-zero [b] with a positive
    denominator, multiplying by [b] and dividing the product by [b] gives
    an [Exact] whose display is the display of [a]. *)
Theorem times_over_roundtrip (a b : Exact) :
  reduced a -> root a = 1 -> 0 < den b -> num b <> 0 ->
  exists r, Exact.over (Exact.times a b) b = Value r /\ display r = display a.
Proof.
  intros [Ha Ga] Hroot Hb Hnb.
  destruct (times_reduced a b Ha Hb) as ([Hp Gp] & _ & Vp).
  destruct (over_reduced (Exact.times a b) b Hp Hnb) as (r & Hr & [Hd Gr] & Rr & Vr).
  exists r. split; [assumption|].
  set (p := Exact.times a b) in *.
  assert (E : (num r * den a) * (den p * num b) = (num a * den r) * (den p * num b)).
  { replace (num r * den a * (den p * num b))
      with (num r * (den p * num b) * den a) by ring.
    rewrite Vr.
    replace (num p * den b * den r * den a)
      with (num p * (den a * den b) * den r) by ring.
    rewrite Vp. ring. }
  apply Z.mul_reg_r in E; [|nia].
  destruct (reduced_unique (num r) (den r) (num a) (den a) Hd Gr Ha Ga E) as [En Ed].
  unfold display. rewrite En, Ed, Rr, Hroot. reflexivity.
Qed.

(** The round trip of -69 through -6/9. *)
Lemma times_over_roundtrip_witness :
  exists r, Exact.over (Exact.times (newExact (-69)) (mkExact (-2) 3 1))
                       (mkExact (-2) 3 1) = Value r /\
            display r = display (newExact (-69)).
Proof.
  apply (times_over_roundtrip (newExact (-69)) (mkExact (-2) 3 1)).
  - split; reflexivity.
  - reflexivity.
  - reflexivity.
  - cbn. lia.
Defined.

(** C6 (the code departs from the claim).  [toThe] measures growth with
    [BigIntLog10], which leaves its loop at magnitude 10 and so counts one
    division less than the decimal length minus one on 10, 100, ..., 109,
    ...  Raising 10 to the power 21 passes every guard and returns 10^21,
    whose 22 digits exceed the single digit of its denominator by 21.
    The two examples of the claim hold: 9 to the power 6 is 531441 and 69
    to the power 69 overflows. *)
Theorem toThe_guard_counts_divisions :
  ExactPow.toThe (newExact 10) (newExact 21) = Value (newExact (10 ^ 21)) /\
  display (newExact (10 ^ 21)) = Str "1000000000000000000000"%string /\
  display (newExact 1) = Str "1"%string /\
  (String.length "1000000000000000000000"%string
   - String.length "1"%string = 21)%nat /\
  BigIntLog10 (10 ^ 21) - BigIntLog10 1 = 20 /\
  BigIntLog10 10 = 0 /\ BigIntLog10 100 = 1 /\ BigIntLog10 109 = 1 /\
  ExactPow.toThe (newExact 9) (newExact 6) = Value (newExact 531441) /\
  ExactPow.toThe (newExact 69) (newExact 69) = OverflowFlag.
Proof. repeat (split; [vm_compute; reflexivity|]). vm_compute; reflexivity. Qed.

(** C7, as stated, fails: 9/6 is the exponent 3/2 with root 1, and 6 to
    that power is not refused; it is 216 tagged with root 2, and version 2
    keeps the candidate [(6 ** (9 / 6))] in its list of non-integers. *)
Lemma fractional_exponent_not_refused :
  Exact.over (newExact 9) (newExact 6) = Value (mkExact 3 2 1) /\
  ExactPow.toThe (newExact 6) (mkExact 3 2 1) = Value (mkExact 216 1 2) /\
  attempt_version2 knownNumbers0 (Atom2 6) (Expression2 (Atom2 9) OpOver (Atom2 6))
                   OpToThe [("float"%string, [])]
  = Some [("float"%string,
           [Expression2 (Atom2 6) OpToThe (Expression2 (Atom2 9) OpOver (Atom2 6))])].
Proof. repeat split; vm_compute; reflexivity. Qed.

(** C7, amended.  When the root field of the exponent is not 1, [toThe]
    is refused with the error flag and the candidate is discarded: the
    attempt of version 2, the search that has the operator, leaves the
    table as it is.  An exponent with root 1 is never refused so, also
    when its denominator is not 1.  Then, the operand [This] having a
    positive denominator, [toThe] either overflows or returns the reduced
    fraction equal to [This] raised to the magnitude of the numerator of
    the exponent, counted as 1 when it is 0, with the denominator of the
    exponent as root, displayed as a non-integer when that denominator is
    not 1; and it does return it when that magnitude is at most 100 and
    the powers of the numerator and of the denominator of [This] are
    below 10^21. *)
Theorem toThe_refuses_tagged_exponent (a b : Exact) :
  (root b <> 1 ->
   ExactPow.toThe a b = ErrorFlag /\
   forall (knownNumbers : list string) (l r : Term) (newList : Obj (list Term)),
     evaluate l = Value a -> evaluate r = Value b ->
     evaluate (Expression2 l OpToThe r) = ErrorFlag /\
     attempt_version2 knownNumbers l r OpToThe newList = Some newList) /\
  (root b = 1 ->
   ExactPow.toThe a b <> ErrorFlag /\
   (0 < den (toTheBase a b) ->
    let n := Z.max 1 (Z.abs (num b)) in
    (ExactPow.toThe a b = OverflowFlag \/
     exists r, ExactPow.toThe a b = Value r /\
               reduced r /\ root r = den b /\
               num r * den (toTheBase a b) ^ n = num (toTheBase a b) ^ n * den r /\
               (den b <> 1 -> display r = FloatFlag)) /\
    (Z.abs (num b) <= 100 ->
     Z.abs (num (toTheBase a b)) ^ Z.abs (num b) < 10 ^ 21 ->
     den (toTheBase a b) ^ Z.abs (num b) < 10 ^ 21 ->
     exists r, ExactPow.toThe a b = Value r))).
Proof.
  split.
  - intros Hroot. pose proof (toThe_root_not_one a b Hroot) as E.
    split; [exact E|].
    intros knownNumbers l r newList Hl Hr.
    assert (Ev : evaluate (Expression2 l OpToThe r) = ErrorFlag).
    { cbn [evaluate]. rewrite Hl, Hr. exact E. }
    split; [exact Ev|].
    unfold attempt_version2. rewrite Ev.
    destruct (negb (end_ l =? start r)); reflexivity.
  - intros Hroot. destruct (toThe_root_one a b Hroot) as [Hne Hdisp].
    split; [exact Hne|]. intros HT n. split.
    + destruct (toThe_flags a b Hroot HT) as [H|[r Hr]]; [left; assumption|].
      right. exists r. split; [assumption|].
      destruct (toThe_value_spec a b r Hroot HT Hr) as (_ & Hred & Hrt & Hv).
      split; [assumption|]. split; [assumption|]. split; [exact Hv|].
      apply (Hdisp r Hr).
    + intros Hle Bn Bd. exact (toThe_returns a b Hroot HT Hle Bn Bd).
Qed.

(** 9 to the power of [(6 ** (9 / 6))], whose value 216 has root 2, is
    refused and discarded; 6 to the power 3/2 with root 1 is returned as
    216 with root 2 and displayed as a non-integer. *)
Lemma toThe_refuses_tagged_exponent_witness :
  (evaluate (Expression2 (Atom2 9) OpToThe
               (Expression2 (Atom2 6) OpToThe (Expression2 (Atom2 9) OpOver (Atom2 6))))
   = ErrorFlag /\
   attempt_version2 knownNumbers0 (Atom2 9)
     (Expression2 (Atom2 6) OpToThe (Expression2 (Atom2 9) OpOver (Atom2 6)))
     OpToThe [("float"%string, [])] = Some [("float"%string, [])]) /\
  exists r, ExactPow.toThe (newExact 6) (mkExact 3 2 1) = Value r.
Proof.
  split.
  - apply (proj1 (toThe_refuses_tagged_exponent (newExact 9) (mkExact 216 1 2))).
    + cbn. lia.
    + vm_compute; reflexivity.
    + vm_compute; reflexivity.
  - destruct (proj2 (toThe_refuses_tagged_exponent (newExact 6) (mkExact 3 2 1))
                eq_refl) as [_ H].
    apply H.
    + reflexivity.
    + vm_compute. discriminate.
    + vm_compute; reflexivity.
    + vm_compute; reflexivity.
Defined.

(** C8, as stated, fails: [(69 ^ 10 * (6 + 9))] joins two complete
    terms with keys of 19 and 2 characters, is adjacency-permitted and
    complete, its value has a key of exactly 20 characters that is not in
    [knownNumbers], and the attempt leaves the table empty. *)
Lemma twenty_character_key_discarded :
  let st := {| table := []; knownNumbers := knownNumbers0; floatCounter := 0 |} in
  negb (end_ (powerOf69 9) =? start fifteen) = true /\
  evaluate (powerOf69 9) = Value (newExact 2446194060654759801) /\
  complete (powerOf69 9) = true /\
  evaluate twentyDigits = Value (newExact 36692910909821397015) /\
  display (newExact 36692910909821397015) = Str "36692910909821397015"%string /\
  String.length "36692910909821397015"%string = 20%nat /\
  complete twentyDigits = true /\
  operationCount twentyDigits = 11%nat /\
  includes (knownNumbers st) "36692910909821397015"%string = false /\
  attempt 11 11 (powerOf69 9) fifteen OpTimes st =
  Some {| table := []; knownNumbers := knownNumbers0; floatCounter := 1 |}.
Proof.
  cbv zeta. repeat (split; [vm_compute; reflexivity|]). vm_compute; reflexivity.
Qed.

(** C8, amended.  An integer result whose decimal key has 20 characters
    or more is discarded, complete or not: the attempt only advances
    [floatCounter].  With a key of at most 19 characters that is not in
    [knownNumbers], the new term is kept under its key when it is
    complete or the level is below the budget. *)
Theorem key_length_guard (N ops : nat) (L R : Term) (op : Operation)
        (st : Search) (e : Exact) (d : string) :
  end_ L <> start R ->
  evaluate (Expression2 L op R) = Value e ->
  display e = Str d ->
  ((20 <= String.length d)%nat ->
   attempt N ops L R op st =
   Some {| table := table st; knownNumbers := knownNumbers st;
           floatCounter := floatCounter st + 1 |}) /\
  ((String.length d < 20)%nat ->
   includes (knownNumbers st) d = false ->
   complete (Expression2 L op R) = true \/ (ops < N)%nat ->
   exists st', attempt N ops L R op st = Some st' /\
               objGet (table st') d = Some (Expression2 L op R)).
Proof.
  intros Hadj Hev Hd. unfold attempt. cbv zeta.
  destruct (Z.eqb_spec (end_ L) (start R)) as [E|_]; [contradiction|].
  cbn [negb]. rewrite Hev, Hd. split.
  - intros Hlen. apply Nat.ltb_ge in Hlen. rewrite Hlen, andb_false_r. reflexivity.
  - intros Hlen Hknown Helig. apply Nat.ltb_lt in Hlen.
    rewrite Hknown, Hlen. cbn [negb andb].
    eexists. split; [reflexivity|]. cbn [table].
    assert (Hset : complete (Expression2 L op R) || (ops <? N)%nat = true).
    { destruct Helig as [->|H]; [reflexivity|].
      apply Nat.ltb_lt in H. rewrite H. apply orb_true_r. }
    rewrite Hset. apply objGet_objSet_same.
Qed.

(** At level 1 of a search with budget 1 the complete term [(-6 + 9)] is
    kept under the key of 3; the twenty-digit product is discarded. *)
Lemma key_length_guard_witness :
  (exists st',
     attempt 1 1 (Atom2 (-6)) (Atom2 9) OpPlus
       {| table := []; knownNumbers := knownNumbers0; floatCounter := 0 |}
     = Some st' /\
     objGet (table st') "3"%string = Some three) /\
  attempt 11 11 (powerOf69 9) fifteen OpTimes
    {| table := []; knownNumbers := knownNumbers0; floatCounter := 0 |}
  = Some {| table := []; knownNumbers := knownNumbers0; floatCounter := 0 + 1 |}.
Proof.
  split.
  - apply (proj2 (key_length_guard 1 1 (Atom2 (-6)) (Atom2 9) OpPlus
                    {| table := []; knownNumbers := knownNumbers0;
                       floatCounter := 0 |}
                    (newExact 3) "3"%string
                    ltac:(vm_compute; discriminate) eq_refl eq_refl)).
    + cbn. lia.
    + reflexivity.
    + left. reflexivity.
  - apply (proj1 (key_length_guard 11 11 (powerOf69 9) fifteen OpTimes
                    {| table := []; knownNumbers := knownNumbers0;
                       floatCounter := 0 |}
                    (newExact 36692910909821397015) "36692910909821397015"%string
                    ltac:(vm_compute; discriminate)
                    ltac:(vm_compute; reflexivity) eq_refl)).
    cbn. lia.
Defined.

(** C9.  For every [a] in lowest terms, [toThe] with the exponent zero
    (numerator 0, denominator 1, root 1) returns [a] itself and not 1: the
    loop is not entered, and the closing division by the gcd changes
    nothing. *)
Theorem toThe_zero_returns_base (a : Exact) :
  0 <= den a -> Z.gcd (Z.abs (num a)) (den a) = 1 ->
  ExactPow.toThe a (mkExact 0 1 1) = Value (mkExact (num a) (den a) 1).
Proof.
  intros Ha Ga. unfold ExactPow.toThe. cbn [root num den].
  change (negb (1 =? 1)) with false. change (0 <? 0) with false.
  change (Exact.Abs 0) with 0. change (0 >? 100) with false.
  change (Z.to_nat (0 - 1)) with O. cbn [ExactPow.powLoop Exact.copy num den root].
  rewrite Abs_abs, gcd_spec by lia. rewrite Ga.
  change (1 =? 0) with false. cbv iota. rewrite !Z.quot_1_r. reflexivity.
Qed.

(** 69 to the power zero is 69. *)
Lemma toThe_zero_returns_base_witness :
  ExactPow.toThe (newExact 69) (mkExact 0 1 1) = Value (mkExact 69 1 1).
Proof.
  apply (toThe_zero_returns_base (newExact 69)).
  - cbn. lia.
  - reflexivity.
Defined.

(** C10, as stated, fails for the budget 0: the search then returns the
    array [List] itself, whose only level holds the atoms 69 and -69. *)
Lemma budget_zero_returns_atoms :
  exists level0,
    getExpression_version3 0 = Some (ReturnList [level0]) /\
    objGet level0 "69"%string = Some (Atom2 69) /\
    objGet level0 "-69"%string = Some (Atom2 (-69)).
Proof. eexists. repeat split. Qed.

(** C10, amended.  For every budget [N] of at least 1 the search returns
    [N + 1] projected tables and [knownNumbers], which holds 69 and -69,
    and no projected table has the key 69 or the key -69: the atoms of
    level 0 have no [complete] field, and no later level uses a key that
    [knownNumbers] held from the start. *)
Theorem sixty_nine_never_projected (N : nat) :
  (1 <= N)%nat ->
  exists DisplayList known,
    getExpression_version3 N = Some (ReturnDisplay DisplayList known) /\
    Datatypes.length DisplayList = S N /\
    In "69"%string known /\ In "-69"%string known /\
    forall k level, nth_error DisplayList k = Some level ->
      objGet level "69"%string = None /\ objGet level "-69"%string = None.
Proof.
  intros HN. unfold getExpression_version3.
  destruct N as [|N]; [lia|].
  destruct (levels_returns (S N)) as (L & kn & -> & Hlen & (Hlv & _ & Hk0 & _ & H0)).
  exists (map project L), kn.
  split; [reflexivity|]. split; [rewrite length_map; assumption|].
  split; [apply Hk0; left; reflexivity|].
  split; [apply Hk0; right; left; reflexivity|].
  intros k level Hk. rewrite nth_error_map in Hk.
  destruct (nth_error L k) as [lvl|] eqn:El; [|discriminate].
  cbn in Hk. injection Hk as <-.
  assert (Hnone : forall key, In key knownNumbers0 -> objGet (project lvl) key = None).
  { intros key Hin.
    destruct (objGet (project lvl) key) as [s|] eqn:Eg; [|reflexivity].
    apply project_complete in Eg. destruct Eg as (t & Ht & Hc & _).
    destruct k as [|k].
    - rewrite H0 in El. cbn in El. injection El as <-.
      apply objGet_In in Ht. cbn in Ht.
      repeat (destruct Ht as [[= <- <-]|Ht]; [discriminate Hc|]). contradiction.
    - destruct (Hlv _ _ El) as (_ & _ & HU).
      rewrite (HU ltac:(lia) key Hin) in Ht. discriminate. }
  split; apply Hnone; [left|right; left]; reflexivity.
Qed.

(** The budget 1. *)
Lemma sixty_nine_never_projected_witness :
  exists DisplayList known,
    getExpression_version3 1 = Some (ReturnDisplay DisplayList known) /\
    Datatypes.length DisplayList = 2%nat /\
    In "69"%string known /\ In "-69"%string known /\
    forall k level, nth_error DisplayList k = Some level ->
      objGet level "69"%string = None /\ objGet level "-69"%string = None.
Proof. apply (sixty_nine_never_projected 1). lia. Defined.

(** * Further properties *)

(** ** Arithmetic *)

(** X1.  On non-negative arguments [Exact.gcd] returns the greatest
    common divisor: it divides both arguments, every common divisor
    divides it, and it is 0 only when both arguments are 0 (the case in
    which [plus], [minus] and [over] divide by zero). *)
Theorem gcd_is_greatest_common_divisor (X Y : Z) :
  0 <= X -> 0 <= Y ->
  Exact.gcd X Y = Z.gcd X Y /\
  (Exact.gcd X Y | X) /\ (Exact.gcd X Y | Y) /\
  (forall d, (d | X) -> (d | Y) -> (d | Exact.gcd X Y)) /\
  (Exact.gcd X Y = 0 <-> X = 0 /\ Y = 0).
Proof.
  intros HX HY. rewrite (gcd_spec X Y HX HY).
  split; [reflexivity|].
  split; [apply Z.gcd_divide_l|].
  split; [apply Z.gcd_divide_r|].
  split; [intros d; apply Z.gcd_greatest|].
  split.
  - intros E. split; [apply (Z.gcd_eq_0_l _ _ E)|apply (Z.gcd_eq_0_r _ _ E)].
  - intros [-> ->]. reflexivity.
Qed.

(** The gcd of 12 and 18. *)
Lemma gcd_is_greatest_common_divisor_witness :
  Exact.gcd 12 18 = Z.gcd 12 18 /\
  (Exact.gcd 12 18 | 12) /\ (Exact.gcd 12 18 | 18) /\
  (forall d, (d | 12) -> (d | 18) -> (d | Exact.gcd 12 18)) /\
  (Exact.gcd 12 18 = 0 <-> 12 = 0 /\ 18 = 0).
Proof. apply (gcd_is_greatest_common_divisor 12 18); lia. Defined.

(** X2.  The loop [while (true)] of [Exact.gcd] is left for all integer
    arguments, negative ones included, within one more turn than the
    binary logarithm of the magnitude of its second argument. *)
Theorem gcd_loop_terminates (X Y : Z) :
  exists g, Exact.gcd_loop (Z.to_nat (Z.log2 (Z.abs Y)) + 1) X Y = Some g.
Proof.
  apply gcd_loop_returns. pose proof (Z.log2_nonneg (Z.abs Y)). lia.
Qed.

(** X3.  On operands with positive denominators the four methods compute
    the exact sum, difference, product and quotient: the fraction returned
    equals, by cross-multiplication, the one formed from the operands. *)
Theorem arithmetic_is_exact (a b : Exact) :
  0 < den a -> 0 < den b ->
  (exists r, Exact.plus a b = Value r /\
             num r * (den a * den b) = (num a * den b + den a * num b) * den r) /\
  (exists r, Exact.minus a b = Value r /\
             num r * (den a * den b) = (num a * den b - den a * num b) * den r) /\
  num (Exact.times a b) * (den a * den b) = (num a * num b) * den (Exact.times a b) /\
  (num b <> 0 ->
   exists r, Exact.over a b = Value r /\
             num r * (den a * num b) = (num a * den b) * den r).
Proof.
  intros Ha Hb. split; [|split; [|split]].
  - destruct (plus_reduced a b Ha Hb) as (r & H & _ & Hv). eauto.
  - destruct (minus_reduced a b Ha Hb) as (r & H & _ & Hv). eauto.
  - apply (times_reduced a b Ha Hb).
  - intros Hn. destruct (over_reduced a b Ha Hn) as (r & H & _ & _ & Hv). eauto.
Qed.

(** The four methods on 6 and -4/6. *)
Lemma arithmetic_is_exact_witness :
  Exact.plus (newExact 6) (mkExact (-4) 6 1) = Value (mkExact 16 3 1) /\
  Exact.minus (newExact 6) (mkExact (-4) 6 1) = Value (mkExact 20 3 1) /\
  Exact.times (newExact 6) (mkExact (-4) 6 1) = newExact (-4) /\
  Exact.over (newExact 6) (mkExact (-4) 6 1) = Value (newExact (-9)) /\
  16 * (1 * 6) = (6 * 6 + 1 * -4) * 3.
Proof.
  repeat (split; [vm_compute; reflexivity|]).
  destruct (arithmetic_is_exact (newExact 6) (mkExact (-4) 6 1)
              ltac:(reflexivity) ltac:(reflexivity)) as ((r & Hr & Hv) & _).
  change (Exact.plus (newExact 6) (mkExact (-4) 6 1))
    with (Value (mkExact 16 3 1)) in Hr.
  injection Hr as <-. exact Hv.
Defined.

(** X4.  [plus] and [times] are commutative on all operands: swapping
    them gives the same outcome, which is what the pruning of [+] and [*]
    in one direction of a composition relies on. *)
Theorem plus_times_commute (a b : Exact) :
  Exact.plus a b = Exact.plus b a /\ Exact.times a b = Exact.times b a.
Proof.
  unfold Exact.plus, Exact.times.
  replace (num b * den a + den b * num a) with (num a * den b + den a * num b) by ring.
  replace (den b * den a) with (den a * den b) by ring.
  replace (num b * num a) with (num a * num b) by ring.
  split; reflexivity.
Qed.

(** X5.  Dividing is multiplying by the inverse: for operands with
    positive denominators and a non-zero divisor, [over] returns exactly
    the [Exact] that [times] returns on the inverse of the divisor. *)
Theorem over_is_times_inverse (a b : Exact) :
  0 < den a -> 0 < den b -> num b <> 0 ->
  Exact.over a b = Value (Exact.times a (Exact.inverse b)).
Proof.
  intros Ha Hb Hn.
  destruct (over_reduced a b Ha Hn) as (r & Hr & _).
  unfold Exact.over in *. unfold Exact.times, Exact.inverse. cbn [num den root].
  destruct (Z.eqb_spec (num b) 0) as [E|_]; [contradiction|].
  set (F := if num b <? 0 then -1 else 1).
  assert (HF : (if den a * num b <? 0 then -1 else 1) = F).
  { unfold F. destruct (Z.ltb_spec (den a * num b) 0), (Z.ltb_spec (num b) 0); nia. }
  rewrite HF in *.
  assert (HD : Exact.Abs (den a * num b) = den a * Exact.Abs (num b)).
  { rewrite !Abs_abs, Z.abs_mul. lia. }
  rewrite HD in *.
  assert (HN : Exact.Abs (num a * den b) = Exact.Abs (num a * (F * den b))).
  { rewrite !Abs_abs, !Z.abs_mul. unfold F. destruct (num b <? 0); lia. }
  rewrite HN in *.
  replace (F * (num a * den b)) with (num a * (F * den b)) in * by ring.
  destruct (Exact.gcd _ _ =? 0); [discriminate|reflexivity].
Qed.

(** 69 over -6. *)
Lemma over_is_times_inverse_witness :
  Exact.over (newExact 69) (newExact (-6))
  = Value (Exact.times (newExact 69) (Exact.inverse (newExact (-6)))).
Proof.
  apply (over_is_times_inverse (newExact 69) (newExact (-6))).
  - reflexivity.
  - reflexivity.
  - cbn. lia.
Defined.

(** X6.  For a non-zero [Exact] with a positive denominator the inverse
    has a positive denominator, is the reciprocal fraction, and inverting
    twice gives the [Exact] back.  The inverse of zero is not refused: it
    has the denominator 0. *)
Theorem inverse_involutive (a : Exact) :
  0 < den a ->
  (num a <> 0 ->
   0 < den (Exact.inverse a) /\
   num (Exact.inverse a) * num a = den (Exact.inverse a) * den a /\
   Exact.inverse (Exact.inverse a) = a) /\
  (num a = 0 -> den (Exact.inverse a) = 0).
Proof.
  intros Ha. split.
  - intros Hn. unfold Exact.inverse. cbn [num den root]. rewrite !Abs_abs.
    split; [lia|]. split.
    + destruct (Z.ltb_spec (num a) 0); lia.
    + destruct a as [n d r]. cbn [num den root] in *.
      destruct (Z.ltb_spec n 0).
      * destruct (Z.ltb_spec (-1 * d) 0); [|lia]. f_equal; lia.
      * destruct (Z.ltb_spec (1 * d) 0); [lia|]. f_equal; lia.
  - intros E. unfold Exact.inverse. cbn [den]. rewrite E. reflexivity.
Qed.

(** The inverse of -2/3, and of zero. *)
Lemma inverse_involutive_witness :
  Exact.inverse (Exact.inverse (mkExact (-2) 3 1)) = mkExact (-2) 3 1 /\
  den (Exact.inverse (newExact 0)) = 0.
Proof.
  split.
  - apply (proj1 (inverse_involutive (mkExact (-2) 3 1) ltac:(reflexivity))).
    cbn. lia.
  - apply (proj2 (inverse_involutive (newExact 0) ltac:(reflexivity))).
    reflexivity.
Defined.

(** X7.  For an exponent with root 1, when the operand [This] (the base,
    or its inverse for a negative exponent) has a positive denominator,
    [toThe] either overflows or returns the reduced fraction equal to
    [This] raised to the magnitude of the numerator of the exponent,
    counted as 1 when it is 0, and tagged with the denominator of the
    exponent as root. *)
Theorem toThe_is_exact_power (a b : Exact) :
  root b = 1 -> 0 < den (toTheBase a b) ->
  ExactPow.toThe a b = OverflowFlag \/
  exists r, ExactPow.toThe a b = Value r /\
            Z.abs (num b) <= 100 /\ reduced r /\ root r = den b /\
            num r * den (toTheBase a b) ^ Z.max 1 (Z.abs (num b))
            = num (toTheBase a b) ^ Z.max 1 (Z.abs (num b)) * den r.
Proof.
  intros Hroot HT.
  destruct (toThe_flags a b Hroot HT) as [H|[r Hr]]; [left; assumption|].
  right. exists r. split; [assumption|].
  exact (toThe_value_spec a b r Hroot HT Hr).
Qed.

(** 2/3 to the power -3 is 27/8. *)
Lemma toThe_is_exact_power_witness :
  exists r, ExactPow.toThe (mkExact 2 3 1) (newExact (-3)) = Value r /\
            Z.abs (num (newExact (-3))) <= 100 /\ reduced r /\
            root r = den (newExact (-3)) /\
            num r * den (toTheBase (mkExact 2 3 1) (newExact (-3)))
                    ^ Z.max 1 (Z.abs (num (newExact (-3))))
            = num (toTheBase (mkExact 2 3 1) (newExact (-3)))
                  ^ Z.max 1 (Z.abs (num (newExact (-3)))) * den r.
Proof.
  destruct (toThe_is_exact_power (mkExact 2 3 1) (newExact (-3))
              ltac:(reflexivity) ltac:(reflexivity)) as [H|H].
  - vm_compute in H. discriminate H.
  - exact H.
Defined.

Lemma powLoop_zero_denominator (n : nat) :
  ExactPow.powLoop n (mkExact 1 0 1) (mkExact 1 0 1) = Some (mkExact 1 0 1).
Proof.
  induction n as [|n IH]; [reflexivity|].
  cbn [ExactPow.powLoop].
  change (Exact.times (mkExact 1 0 1) (mkExact 1 0 1)) with (mkExact 1 0 1).
  change (ExactPow.guard (mkExact 1 0 1)) with false. exact IH.
Qed.

(** X8.  Raising zero to a negative integer power of magnitude at most
    100 is not reported as an error: [toThe] returns the fraction 1/0,
    which [display] shows as a non-integer. *)
Theorem toThe_zero_base_negative_exponent (b : Exact) :
  root b = 1 -> num b < 0 -> -100 <= num b ->
  ExactPow.toThe (newExact 0) b = Value (mkExact 1 0 (den b)) /\
  display (mkExact 1 0 (den b)) = FloatFlag.
Proof.
  intros Hroot Hneg Hb. split; [|reflexivity].
  unfold ExactPow.toThe. rewrite Hroot.
  change (negb (1 =? 1)) with false. cbv iota.
  destruct (Z.ltb_spec (num b) 0); [|lia].
  change (Exact.copy (Exact.inverse (newExact 0))) with (mkExact 1 0 1).
  change (Exact.inverse (newExact 0)) with (mkExact 1 0 1).
  rewrite Abs_abs.
  destruct (Z.gtb_spec (Z.abs (num b)) 100); [lia|].
  rewrite powLoop_zero_denominator. reflexivity.
Qed.

(** Zero to the power -6. *)
Lemma toThe_zero_base_negative_exponent_witness :
  ExactPow.toThe (newExact 0) (newExact (-6)) = Value (mkExact 1 0 1) /\
  display (mkExact 1 0 1) = FloatFlag.
Proof.
  apply (toThe_zero_base_negative_exponent (newExact (-6))).
  - reflexivity.
  - reflexivity.
  - cbn. lia.
Defined.

(** X9.  For a non-zero [n], [BigIntLog10(n)] is a non-negative [k] with
    [10^k <= |n| < 11 * 10^k]: it is the floor of the base-10 logarithm
    of [|n|], or one less. *)
Theorem BigIntLog10_bounds (n : Z) :
  n <> 0 ->
  0 <= BigIntLog10 n /\
  10 ^ BigIntLog10 n <= Z.abs n < 11 * 10 ^ BigIntLog10 n.
Proof.
  intros Hn.
  pose proof (BigIntLog10_loop_bounds (log10_fuel n) n 0 (log10_fuel_bound n)
                ltac:(lia)) as H.
  cbv zeta in H. rewrite Z.sub_0_r in H. exact H.
Qed.

(** -109 is counted as one division. *)
Lemma BigIntLog10_bounds_witness :
  0 <= BigIntLog10 (-109) /\
  10 ^ BigIntLog10 (-109) <= Z.abs (-109) < 11 * 10 ^ BigIntLog10 (-109).
Proof. apply (BigIntLog10_bounds (-109)). lia. Defined.

Lemma digitsValue_digitString (m : Z) (s : string) (acc : Z) :
  0 <= m <= 9 ->
  digitsValue (digitString m ++ s) acc = digitsValue s (10 * acc + m).
Proof.
  intros Hm.
  assert (m = 0 \/ m = 1 \/ m = 2 \/ m = 3 \/ m = 4 \/ m = 5 \/ m = 6 \/
          m = 7 \/ m = 8 \/ m = 9) as H by lia.
  repeat (destruct H as [->|H]; [reflexivity|]). subst m. reflexivity.
Qed.

Lemma digitsValue_displayLoop (fuel : nat) : forall Int s,
  0 <= Int < 10 ^ Z.of_nat fuel ->
  digitsValue (displayLoop fuel Int s) 0 = digitsValue s Int.
Proof.
  induction fuel as [|fuel IH]; intros Int s H.
  - cbn in H. assert (Int = 0) by lia. subst. reflexivity.
  - cbn [displayLoop]. destruct (Z.gtb_spec Int 0) as [Hpos|Hz].
    + rewrite IH.
      * rewrite digitsValue_digitString.
        -- f_equal. pose proof (Z.quot_rem' Int 10). lia.
        -- pose proof (Z.rem_bound_pos Int 10 ltac:(lia) ltac:(lia)). lia.
      * pose proof (quot10_bound Int fuel ltac:(lia)) as Hq.
        pose proof (Z.quot_pos Int 10 ltac:(lia) ltac:(lia)). lia.
    + assert (Int = 0) by lia. subst. reflexivity.
Qed.

(** Reading back what [displayInt] wrote. *)
Lemma numeralValue_displayInt (n : Z) : numeralValue (displayInt n) = Some n.
Proof.
  unfold displayInt.
  destruct (Z.eqb_spec n 0) as [->|Hn]; [reflexivity|].
  destruct (Z.ltb_spec n 0) as [Hneg|Hpos].
  - rewrite Abs_abs. cbn [append numeralValue].
    change (Ascii.eqb "-" "-") with true. cbv iota.
    rewrite digitsValue_displayLoop.
    + cbn. f_equal. lia.
    + pose proof (log10_fuel_bound (Z.abs n)). lia.
  - cbn [append].
    assert (H : digitsValue (displayLoop (log10_fuel n) n EmptyString) 0 = Some n).
    { rewrite digitsValue_displayLoop; [reflexivity|].
      pose proof (log10_fuel_bound n). lia. }
    destruct (displayLoop (log10_fuel n) n EmptyString) as [|c rest];
      [cbn in H; injection H; lia|].
    unfold numeralValue. destruct (Ascii.eqb_spec c "-"%char) as [->|_]; [|exact H].
    cbn in H. discriminate.
Qed.

(** X10.  The decimal string that [display] writes for an integer reads
    back as that integer, so distinct integers get distinct strings, and
    two [Exact] values displayed as the same string are equal: a key of a
    level table stands for one value only. *)
Theorem display_roundtrip :
  (forall n, numeralValue (displayInt n) = Some n) /\
  (forall a b, displayInt a = displayInt b -> a = b) /\
  (forall e e' d, display e = Str d -> display e' = Str d -> e = e').
Proof.
  split; [exact numeralValue_displayInt|].
  assert (INJ : forall a b, displayInt a = displayInt b -> a = b).
  { intros a b E. pose proof (numeralValue_displayInt a) as Ha.
    rewrite E, numeralValue_displayInt in Ha. congruence. }
  split; [exact INJ|].
  intros e e' d. unfold display.
  destruct (Z.eqb_spec (den e) 1); [|discriminate].
  destruct (Z.eqb_spec (root e) 1); [|discriminate].
  destruct (Z.eqb_spec (den e') 1); [|discriminate].
  destruct (Z.eqb_spec (root e') 1); [|discriminate].
  cbn [negb orb]. intros [= <-] [= E]. apply INJ in E.
  destruct e, e'. cbn in *. congruence.
Qed.

(** ** Terms kept by the search *)


Lemma foldM_preserves {S X : Type} (P : S -> Prop) (body : S -> X -> option S)
      (xs : list X) :
  (forall s x s', In x xs -> P s -> body s x = Some s' -> P s') ->
  forall s s', P s -> foldM body xs s = Some s' -> P s'.
Proof.
  induction xs as [|x xs IH]; intros Hbody s s' Hs; cbn [foldM].
  - intros [= <-]. assumption.
  - destruct (body s x) as [s1|] eqn:E; [|discriminate].
    apply IH.
    + intros s0 x0 s0' Hin. apply Hbody. right. assumption.
    + apply (Hbody s x s1 (or_introl eq_refl) Hs E).
Qed.

Lemma operationLoop_preserves {S : Type} (P : S -> Prop)
      (body : Operation -> S -> option S) (ig : bool) (ops : list Operation) :
  (forall op s s', In op ops -> P s -> body op s = Some s' -> P s') ->
  forall s s', P s -> operationLoop body ig ops s = Some s' -> P s'.
Proof.
  induction ops as [|op ops IH]; intros Hbody s s' Hs; cbn [operationLoop].
  - intros [= <-]. assumption.
  - destruct (ig && isSumOrMul op); [intros [= <-]; assumption|].
    destruct (body op s) as [s1|] eqn:E; [|discriminate].
    apply IH.
    + intros op0 s0 s0' Hin. apply Hbody. right. assumption.
    + apply (Hbody op s s1 (or_introl eq_refl) Hs E).
Qed.

Lemma display_integer (e : Exact) (d : string) :
  display e = Str d -> e = newExact (num e) /\ d = displayInt (num e).
Proof.
  unfold display.
  destruct (Z.eqb_spec (den e) 1) as [Hd|]; [|discriminate].
  destruct (Z.eqb_spec (root e) 1) as [Hr|]; [|discriminate].
  cbn [negb orb]. intros [= <-]. split; [|reflexivity].
  destruct e. cbn in *. subst. reflexivity.
Qed.

Lemma settledBy_app (List : list (Obj Term)) (T : Obj Term) (key : string) :
  settledBy List key \/ settledBy [T] key -> settledBy (List ++ [T]) key.
Proof.
  intros [(i & lvl & t & V & Hi & H)|(i & lvl & t & V & Hi & H)].
  - exists i, lvl, t, V. split; [|exact H].
    rewrite nth_error_app1; [assumption|]. apply nth_error_Some. congruence.
  - exists (Datatypes.length List + i)%nat, lvl, t, V. split; [|exact H].
    rewrite nth_error_app2 by lia.
    replace (Datatypes.length List + i - Datatypes.length List)%nat with i by lia.
    assumption.
Qed.

Section RetainedTerms.

Variable Q : Term -> Prop.
Hypothesis Q_atom : forall v, In v atoms -> Q (Atom2 v).
Hypothesis Q_join : forall L R op,
  Q L -> Q R -> end_ L <> start R -> In op OperationList_version3 ->
  (operationCount R <= operationCount L)%nat ->
  (exists e, evaluate (Expression2 L op R) = Value e /\
             forall d, display e = Str d -> (String.length d < 20)%nat) ->
  Q (Expression2 L op R).

Lemma knownFrom_set (List : list (Obj Term)) (T : Obj Term)
      (known : list string) (k : string) (t : Term) :
  ~ In k known -> knownFrom List T known -> knownFrom List (objSet k t T) known.
Proof.
  intros Hk HF key Hin.
  destruct (HF key Hin) as [H|[H|(i & lvl & t0 & V & Hi & Hg & H)]]; auto.
  right. right. destruct i as [|i]; [|destruct i; discriminate].
  cbn in Hi. injection Hi as <-.
  exists O, (objSet k t T), t0, V. split; [reflexivity|]. split; [|exact H].
  rewrite objGet_objSet_other; [assumption|]. intros ->. contradiction.
Qed.

Lemma attempt_levelInv2 (N ops : nat) (List : list (Obj Term))
      (L R : Term) (op : Operation) (st st' : Search) :
  Q L -> Q R -> In op OperationList_version3 ->
  (operationCount R <= operationCount L)%nat ->
  decimalKeys (knownNumbers st) ->
  levelInv2 Q List (table st) (knownNumbers st) ->
  attempt N ops L R op st = Some st' ->
  levelInv2 Q List (table st') (knownNumbers st').
Proof.
  intros HL HR Hop Hcount Hdec (HQ & HN & HF). unfold attempt. cbv zeta.
  destruct (Z.eqb_spec (end_ L) (start R)) as [|Hadj]; cbn [negb];
    [intros [= <-]; repeat split; assumption|].
  destruct (evaluate (Expression2 L op R)) as [e| | |] eqn:Hev;
    try (intros [= <-]; repeat split; assumption).
  assert (Hnew : (forall d, display e = Str d -> (String.length d < 20)%nat) ->
                 Q (Expression2 L op R)) by (intros; apply Q_join; eauto).
  destruct (display e) as [|d] eqn:Hd.
  - destruct (ops <? N)%nat; intros [= <-]; cbn [table knownNumbers];
      [|repeat split; assumption].
    split; [|split; [assumption|]].
    + intros key t. rewrite objGet_objSet.
      match goal with
      | |- context [String.eqb ?a key] => destruct (String.eqb_spec a key)
      end; [intros [= <-]; apply Hnew; discriminate|apply HQ].
    + apply knownFrom_set; [|assumption].
      intros Hin. destruct (Hdec _ Hin) as [z Hz].
      exact (float_key_not_decimal _ _ Hz).
  - destruct (includes (knownNumbers st) d) eqn:Hinc; cbn [negb andb];
      [intros [= <-]; repeat split; assumption|].
    apply includes_false in Hinc.
    destruct (String.length d <? 20)%nat eqn:Hlen; intros [= <-];
      cbn [table knownNumbers]; [|repeat split; assumption].
    apply Nat.ltb_lt in Hlen.
    assert (Hnew' : Q (Expression2 L op R)) by (apply Hnew; intros d' [= <-]; exact Hlen).
    cbn [complete].
    destruct (isComplete (Expression2 L op R)) eqn:Hc; cbn [orb].
    + split; [|split].
      * intros key t. rewrite objGet_objSet.
        destruct (String.eqb_spec d key); [intros [= <-]; exact Hnew'|apply HQ].
      * apply NoDup_app; [assumption|repeat constructor; intros []|].
        intros x Hx [<-|[]]. contradiction.
      * intros key Hin. apply in_app_or in Hin. destruct Hin as [Hin|[<-|[]]].
        -- apply (knownFrom_set List (table st) (knownNumbers st) d
                    (Expression2 L op R) Hinc HF key Hin).
        -- right. right. destruct (display_integer e d Hd) as [He Hdd].
           exists O, (objSet d (Expression2 L op R) (table st)),
             (Expression2 L op R), (num e).
           split; [reflexivity|]. split; [apply objGet_objSet_same|].
           split; [exact Hc|]. split; [congruence|assumption].
    + destruct (ops <? N)%nat; [|repeat split; assumption].
      split; [|split; [assumption|]].
      * intros key t. rewrite objGet_objSet.
        destruct (String.eqb_spec d key); [intros [= <-]; exact Hnew'|apply HQ].
      * apply knownFrom_set; assumption.
Qed.

Lemma compose_levelInv2 (N ops : nat) (known0 : list string)
      (List : list (Obj Term)) (st st' : Obj Term * list string) (c : nat * nat) :
  (forall i lvl, nth_error List i = Some lvl -> keyed i lvl /\ allTerms Q lvl) ->
  Datatypes.length List = ops -> S (fst c + snd c) = ops ->
  levelInv ops known0 (fst st) (snd st) /\ levelInv2 Q List (fst st) (snd st) ->
  compose N ops List st c = Some st' ->
  levelInv ops known0 (fst st') (snd st') /\ levelInv2 Q List (fst st') (snd st').
Proof.
  intros Hlv Hlen Hsum Hinv. unfold compose.
  destruct (nth_error List (fst c)) as [LeftNumbers|] eqn:EL; [|discriminate].
  destruct (nth_error List (snd c)) as [RightNumbers|] eqn:ER; [|discriminate].
  set (P := fun s : Search =>
              levelInv ops known0 (table s) (knownNumbers s) /\
              levelInv2 Q List (table s) (knownNumbers s)).
  match goal with
  | |- context [foldM ?f ?xs ?s0] =>
      destruct (foldM f xs s0) as [s1|] eqn:Hfold; [|discriminate];
      assert (Hs1 : P s1);
      [apply (foldM_preserves P f xs) with (s := s0); [|exact Hinv|exact Hfold]|]
  end.
  - intros s LeftIndex s' HinL Hs.
    apply (foldM_preserves P); [|exact Hs].
    intros s2 RightIndex s2' HinR Hs2.
    destruct (objGet LeftNumbers LeftIndex) as [L|] eqn:HLe; [|discriminate].
    destruct (objGet RightNumbers RightIndex) as [R|] eqn:HRe; [|discriminate].
    destruct (Hlv _ _ EL) as [HkL HqL]. destruct (Hlv _ _ ER) as [HkR HqR].
    destruct (HkL _ _ HLe) as (a & Ha & Hda & _ & Hca).
    destruct (HkR _ _ HRe) as (b & Hb & Hdb & _ & Hcb).
    destruct (fst c <? snd c)%nat eqn:Hig.
    + cbn. intros [= <-]. assumption.
    + apply Nat.ltb_ge in Hig.
      apply (operationLoop_preserves P); [|exact Hs2].
      intros op s3 s3' Hop [Hs3 Hs3'] Hatt. split.
      * assert (Hcnt : S (operationCount L + operationCount R) = ops)
          by (rewrite Hca, Hcb; assumption).
        destruct (attempt_invariant N ops known0 L R op s3 Hop
                    (ex_intro _ a (conj Ha Hda)) (ex_intro _ b (conj Hb Hdb))
                    Hcnt Hs3) as (s4 & E4 & H4).
        congruence.
      * assert (Hle : (operationCount R <= operationCount L)%nat)
          by (rewrite Hca, Hcb; assumption).
        destruct Hs3 as (_ & _ & _ & _ & Hdec).
        exact (attempt_levelInv2 N ops List L R op s3 s3'
                 (HqL _ _ HLe) (HqR _ _ HRe) Hop Hle Hdec Hs3' Hatt).
  - intros [= <-]. exact Hs1.
Qed.

Lemma level_searchInv2 (N ops : nat) (List : list (Obj Term))
      (known : list string) (st' : list (Obj Term) * list string) :
  (1 <= ops)%nat -> Datatypes.length List = ops ->
  searchInv List known -> searchInv2 Q List known ->
  level N ops (List, known) = Some st' ->
  searchInv2 Q (fst st') (snd st').
Proof.
  intros Hops Hlen Hinv (HQ & HN & HK). unfold level. cbn [fst snd].
  destruct (foldM (compose N ops List) (compositionPair (ops - 1)) ([], known))
    as [[T known']|] eqn:Hfold; [|discriminate].
  intros [= <-]. cbn [fst snd].
  set (P := fun st : Obj Term * list string =>
              levelInv ops known (fst st) (snd st) /\
              levelInv2 Q List (fst st) (snd st)).
  assert (HP : P (T, known')).
  { apply (foldM_preserves P (compose N ops List) (compositionPair (ops - 1)))
      with (s := (@nil (string * Term), known)); [| |exact Hfold].
    - intros st c st' Hc Hst. apply compose_levelInv2; try assumption.
      + intros i lvl Hi. split; [apply (proj1 Hinv i lvl Hi)|apply (HQ i lvl Hi)].
      + apply compositionPair_sum in Hc. lia.
    - destruct Hinv as (Hlv & Hfin & Hk0 & Hdec & H0).
      split; [repeat split; try assumption|split; [|split; [assumption|]]].
      + intros key t. cbn. discriminate.
      + intros key t e. cbn. discriminate.
      + apply incl_refl.
      + intros key t. cbn. discriminate.
      + intros key Hin. destruct (HK key Hin); auto. }
  destruct HP as [_ (HQT & HNT & HFT)]. cbn [fst snd] in *.
  split; [|split; [assumption|]].
  - intros i lvl Hi.
    destruct (Nat.lt_ge_cases i (Datatypes.length List)) as [Hlt|Hge].
    + rewrite nth_error_app1 in Hi by assumption. apply (HQ i lvl Hi).
    + rewrite nth_error_app2 in Hi by assumption.
      destruct (i - Datatypes.length List)%nat as [|n]; [|destruct n; discriminate].
      cbn in Hi. injection Hi as <-. assumption.
  - intros key Hin. destruct (HFT key Hin) as [H|H]; [left; assumption|].
    right. apply settledBy_app, H.
Qed.

Lemma levels_from_searchInv2 (N remaining : nat) :
  forall ops List known st',
    (1 <= ops)%nat -> Datatypes.length List = ops ->
    searchInv List known -> searchInv2 Q List known ->
    levels_from N remaining ops (List, known) = Some st' ->
    searchInv2 Q (fst st') (snd st').
Proof.
  induction remaining as [|remaining IH]; intros ops List known st' Hops Hlen Hinv Hinv2.
  - cbn. intros [= <-]. assumption.
  - cbn [levels_from].
    destruct (level_invariant N ops List known Hops Hlen Hinv)
      as (T & known' & Hlev & Hinv').
    pose proof (level_searchInv2 N ops List known _ Hops Hlen Hinv Hinv2 Hlev) as H2.
    rewrite Hlev. cbn [fst snd] in H2.
    apply IH; try assumption; [lia|].
    rewrite length_app. cbn. lia.
Qed.

Lemma retained_terms_ind (N : nat) (List : list (Obj Term)) (known : list string) :
  levels N = Some (List, known) -> searchInv2 Q List known.
Proof.
  intros Hrun.
  apply (levels_from_searchInv2 N N 1 List0 knownNumbers0 (List, known));
    [lia|reflexivity|apply searchInv_initial| |exact Hrun].
  split; [|split].
  - intros i lvl Hi. destruct i as [|i]; [|destruct i; discriminate].
    cbn in Hi. injection Hi as <-.
    intros key t Hget. apply objGet_In in Hget. cbn in Hget.
    repeat (destruct Hget as [[= <- <-]|Hget]; [apply Q_atom; cbn; tauto|]).
    contradiction.
  - repeat constructor; cbn; intuition discriminate.
  - intros key Hin. left. assumption.
Qed.

End RetainedTerms.

(** Induction over the terms the search keeps: a property of the six
    atoms that passes to every join the search can make (adjacency
    permitted, one of the four operators, a right operand with no more
    operators than the left one, a value whose key, when it is an
    integer, has fewer than 20 characters) holds of every term of every
    level. *)
Lemma retained_satisfy (Q : Term -> Prop) :
  (forall v, In v atoms -> Q (Atom2 v)) ->
  (forall L R op,
      Q L -> Q R -> end_ L <> start R -> In op OperationList_version3 ->
      (operationCount R <= operationCount L)%nat ->
      (exists e, evaluate (Expression2 L op R) = Value e /\
                 forall d, display e = Str d -> (String.length d < 20)%nat) ->
      Q (Expression2 L op R)) ->
  forall N List known k lvl key t,
    levels N = Some (List, known) -> nth_error List k = Some lvl ->
    objGet lvl key = Some t -> Q t.
Proof.
  intros Ha Hj N List known k lvl key t Hrun Hk Hget.
  destruct (retained_terms_ind Q Ha Hj N List known Hrun) as (HQ & _).
  exact (HQ k lvl Hk key t Hget).
Qed.

(** X11.  Adjacency is enforced throughout: in every term kept at any
    level, for any budget, each join has a left operand whose end digit
    differs from the start digit of the right operand. *)
Theorem retained_terms_well_joined (N : nat) (List : list (Obj Term))
        (known : list string) (k : nat) (lvl : Obj Term) (key : string) (t : Term) :
  levels N = Some (List, known) -> nth_error List k = Some lvl ->
  objGet lvl key = Some t -> wellJoined t.
Proof.
  apply (retained_satisfy wellJoined).
  - intros v _. exact I.
  - intros L R op HL HR Hadj _ _ _. cbn. auto.
Qed.

(** [((69 + 69) / 69)], kept for 2 at level 2 with budget 2. *)
Lemma retained_terms_well_joined_witness :
  wellJoined (Expression2 (Expression2 (Atom2 69) OpPlus (Atom2 69)) OpOver (Atom2 69)).
Proof.
  eapply (retained_terms_well_joined 2 _ _ 2 _ "2"%string _).
  - vm_compute; reflexivity.
  - vm_compute; reflexivity.
  - vm_compute; reflexivity.
Defined.

(** X12.  Every term kept at any level is built from the six atoms -6,
    6, -9, 9, 69, -69 with the operators +, -, * and / only: the power
    operator never occurs. *)
Theorem retained_terms_plain (N : nat) (List : list (Obj Term))
        (known : list string) (k : nat) (lvl : Obj Term) (key : string) (t : Term) :
  levels N = Some (List, known) -> nth_error List k = Some lvl ->
  objGet lvl key = Some t -> plain t.
Proof.
  apply (retained_satisfy plain).
  - intros v Hv. exact Hv.
  - intros L R op HL HR _ Hop _ _. cbn [plain]. auto.
Qed.

(** [((69 + 69) / 69)], kept for 2 at level 2 with budget 2. *)
Lemma retained_terms_plain_witness :
  plain (Expression2 (Expression2 (Atom2 69) OpPlus (Atom2 69)) OpOver (Atom2 69)).
Proof.
  eapply (retained_terms_plain 2 _ _ 2 _ "2"%string _).
  - vm_compute; reflexivity.
  - vm_compute; reflexivity.
  - vm_compute; reflexivity.
Defined.

(** X13.  Every term kept at any level is left-heavy: at each join the
    right operand has at most as many operators as the left operand.  A
    composition with the smaller level on the left adds nothing, so a
    shape such as [a - (b + c)] is never kept. *)
Theorem retained_terms_left_heavy (N : nat) (List : list (Obj Term))
        (known : list string) (k : nat) (lvl : Obj Term) (key : string) (t : Term) :
  levels N = Some (List, known) -> nth_error List k = Some lvl ->
  objGet lvl key = Some t -> leftHeavy t.
Proof.
  apply (retained_satisfy leftHeavy).
  - intros v _. exact I.
  - intros L R op HL HR _ _ Hc _. cbn [leftHeavy]. auto.
Qed.

(** [((69 + 69) / 69)], kept for 2 at level 2 with budget 2. *)
Lemma retained_terms_left_heavy_witness :
  leftHeavy (Expression2 (Expression2 (Atom2 69) OpPlus (Atom2 69)) OpOver (Atom2 69)).
Proof.
  eapply (retained_terms_left_heavy 2 _ _ 2 _ "2"%string _).
  - vm_compute; reflexivity.
  - vm_compute; reflexivity.
  - vm_compute; reflexivity.
Defined.

(** When [evaluate] returns an [Exact], every operand inside the term
    evaluated to an [Exact] and no division had a zero divisor. *)
Lemma evaluate_noZeroDivisor (t : Term) :
  forall e, evaluate t = Value e -> noZeroDivisor t.
Proof.
  induction t as [v|l IHl op r IHr]; intros e; cbn [evaluate noZeroDivisor]; [auto|].
  destruct (evaluate l) as [a| | |] eqn:El; try discriminate.
  destruct (evaluate r) as [b| | |] eqn:Er;
    try discriminate; try (destruct op; discriminate).
  intros Hop. split; [eapply IHl; reflexivity|]. split; [eapply IHr; reflexivity|].
  split; [eauto|]. exists b. split; [reflexivity|].
  intros -> Hz. cbn [Operations] in Hop. unfold Exact.over in Hop.
  rewrite Hz in Hop. discriminate.
Qed.

(** X14.  No term kept at any level divides by zero or contains an
    operand that failed: every operand inside it evaluates to an [Exact],
    and every divisor is non-zero. *)
Theorem retained_terms_no_zero_divisor (N : nat) (List : list (Obj Term))
        (known : list string) (k : nat) (lvl : Obj Term) (key : string) (t : Term) :
  levels N = Some (List, known) -> nth_error List k = Some lvl ->
  objGet lvl key = Some t -> noZeroDivisor t.
Proof.
  intros Hrun Hk Hget.
  destruct (levels_returns N) as (L & kn & HL & _ & (Hlv & _)).
  rewrite Hrun in HL. injection HL as <- <-.
  destruct (Hlv _ _ Hk) as (Hkeyed & _).
  destruct (Hkeyed _ _ Hget) as (e & He & _).
  exact (evaluate_noZeroDivisor t e He).
Qed.

(** [((69 + 69) / 69)], kept for 2 at level 2 with budget 2. *)
Lemma retained_terms_no_zero_divisor_witness :
  noZeroDivisor (Expression2 (Expression2 (Atom2 69) OpPlus (Atom2 69)) OpOver (Atom2 69)).
Proof.
  eapply (retained_terms_no_zero_divisor 2 _ _ 2 _ "2"%string _).
  - vm_compute; reflexivity.
  - vm_compute; reflexivity.
  - vm_compute; reflexivity.
Defined.

(** X15.  When the loop over the levels is left, [knownNumbers] has no
    repeated element, and it holds exactly 69, -69 and the keys under
    which some level holds a complete term with that integer value. *)
Theorem knownNumbers_characterized (N : nat) (List : list (Obj Term))
        (known : list string) :
  levels N = Some (List, known) ->
  NoDup known /\
  forall key, In key known <-> In key knownNumbers0 \/ settledBy List key.
Proof.
  intros Hrun.
  destruct (retained_terms_ind (fun _ => True) (fun _ _ => I)
              (fun _ _ _ _ _ _ _ _ _ => I) N List known Hrun) as (_ & HN & HK).
  split; [assumption|]. intros key. split; [apply HK|].
  destruct (levels_returns N) as (L & kn & HL & _ & (Hlv & _ & Hk0 & _)).
  rewrite Hrun in HL. injection HL as <- <-.
  intros [Hin|(i & lvl & t & V & Hi & Hget & Hc & Hev & ->)]; [apply Hk0, Hin|].
  destruct (Hlv _ _ Hi) as (_ & HS & _).
  apply (HS (displayInt V) t (newExact V) Hget Hev (display_newExact V)).
  destruct t; [discriminate|exact Hc].
Qed.

(** With budget 1, [knownNumbers] has no repetition. *)
Lemma knownNumbers_characterized_witness :
  exists List known,
    levels 1 = Some (List, known) /\ NoDup known /\
    forall key, In key known <-> In key knownNumbers0 \/ settledBy List key.
Proof.
  destruct (levels 1) as [[List known]|] eqn:E; [|vm_compute in E; discriminate E].
  exists List, known. split; [reflexivity|].
  apply (knownNumbers_characterized 1 List known E).
Defined.

(** X16.  Every entry of the projected output is sound: the string listed
    at level [k] under a key is the display of a term that starts with 6,
    ends with 9 and has exactly [k >= 1] operators; either the term
    evaluates to the integer the key renders, the key has fewer than 20
    characters and is in the returned [knownNumbers], or the term
    evaluates to a non-integer (such entries are projected too, under
    their float key). *)
Theorem projected_entries_sound (N : nat) (DisplayList : list (Obj string))
        (known : list string) (k : nat) (level : Obj string) (key s : string) :
  getExpression_version3 N = Some (ReturnDisplay DisplayList known) ->
  nth_error DisplayList k = Some level ->
  objGet level key = Some s ->
  exists t,
    s = termDisplay t /\ start t = 6 /\ end_ t = 9 /\
    operationCount t = k /\ (1 <= k)%nat /\
    ((exists V, evaluate t = Value (newExact V) /\ key = displayInt V /\
                (String.length key < 20)%nat /\ In key known) \/
     (exists e, evaluate t = Value e /\ display e = FloatFlag)).
Proof.
  unfold getExpression_version3. destruct N as [|N]; [discriminate|].
  destruct (levels (S N)) as [[List kn]|] eqn:Hrun; [|discriminate].
  intros [= <- <-] Hk Hget.
  rewrite nth_error_map in Hk.
  destruct (nth_error List k) as [lvl|] eqn:El; [|discriminate].
  cbn in Hk. injection Hk as <-.
  apply project_complete in Hget. destruct Hget as (t & Ht & Hc & ->).
  exists t. split; [reflexivity|].
  assert (Hic : isComplete t = true) by (destruct t; [discriminate|exact Hc]).
  pose proof Hic as Hse. unfold isComplete in Hse.
  apply andb_prop in Hse. destruct Hse as [Hs He].
  apply Z.eqb_eq in Hs, He. split; [assumption|]. split; [assumption|].
  destruct (levels_returns (S N)) as (L & kn' & HL & _ & (Hlv & _)).
  rewrite Hrun in HL. injection HL as <- <-.
  destruct (Hlv _ _ El) as (Hkeyed & HS & _).
  destruct (Hkeyed _ _ Ht) as (e & Hev & _ & Hd & Hcount).
  split; [assumption|].
  split; [rewrite <- Hcount; destruct t; [discriminate|cbn; lia]|].
  destruct Hd as [Hd|Hd]; [right; eauto|]. left.
  destruct (display_integer e key Hd) as [He' Hkey].
  exists (num e). split; [congruence|]. split; [assumption|].
  split; [|apply (HS key t e Ht Hev Hd Hic)].
  assert (HQ : forall V, evaluate t = Value (newExact V) ->
                         (String.length (displayInt V) < 20)%nat).
  { apply (retained_satisfy
             (fun t => forall V, evaluate t = Value (newExact V) ->
                                 (String.length (displayInt V) < 20)%nat))
      with (N := S N) (List := List) (known := kn) (k := k) (lvl := lvl) (key := key);
      try assumption.
    - intros v Hv V [= <-]. cbn in Hv.
      repeat (destruct Hv as [<-|Hv]; [apply Nat.ltb_lt; vm_compute; reflexivity|]).
      contradiction.
    - intros L0 R0 op _ _ _ _ _ (e0 & He0 & Hlen) V HV.
      apply Hlen. rewrite HV in He0. injection He0 as <-. reflexivity. }
  rewrite Hkey. apply HQ. congruence.
Qed.

(** The entry for 2 at level 2 with budget 2. *)
Lemma projected_entries_sound_witness :
  exists t,
    "((69 + 69) / 69)"%string = termDisplay t /\ start t = 6 /\ end_ t = 9 /\
    operationCount t = 2%nat /\ (1 <= 2)%nat /\
    ((exists V, evaluate t = Value (newExact V) /\ "2"%string = displayInt V /\
                (String.length "2" < 20)%nat /\
                In "2"%string (match getExpression_version3 2 with
                               | Some (ReturnDisplay _ known) => known
                               | _ => []
                               end)) \/
     (exists e, evaluate t = Value e /\ display e = FloatFlag)).
Proof.
  eapply (projected_entries_sound 2 _ _ 2 _ "2"%string "((69 + 69) / 69)"%string).
  - vm_compute; reflexivity.
  - vm_compute; reflexivity.
  - vm_compute; reflexivity.
Defined.

Lemma objGet_key_In {A : Type} (o : Obj A) (k : string) (v : A) :
  objGet o k = Some v -> In k (objKeys o).
Proof.
  intros H. apply objGet_In in H. apply (in_map fst) in H. exact H.
Qed.

(** X17.  The projector keeps exactly the complete terms: a projected
    table lists a string under a key if and only if the level holds,
    under that key, a term whose [complete] flag is set, and the string
    is the display of that term.  Atoms, which have no such flag, and
    incomplete terms are dropped. *)
Theorem project_characterized (level : Obj Term) (key s : string) :
  objGet (project level) key = Some s <->
  exists t, objGet level key = Some t /\ complete t = true /\ s = termDisplay t.
Proof.
  split; [apply project_complete|].
  intros (t & Ht & Hc & ->). unfold project.
  set (f := fun (Obj_ : Obj string) (Num : string) =>
         match objGet level Num with
         | Some t =>
             if complete t && negb (String.eqb (termDisplay t) EmptyString)
             then objSet Num (termDisplay t) Obj_ else Obj_
         | None => Obj_
         end).
  enough (H : forall keys Obj_,
             In key keys \/ objGet Obj_ key = Some (termDisplay t) ->
             objGet (fold_left f keys Obj_) key = Some (termDisplay t)).
  { apply H. left. apply (objGet_key_In _ _ _ Ht). }
  assert (Hne : negb (String.eqb (termDisplay t) EmptyString) = true).
  { destruct t; [discriminate|reflexivity]. }
  induction keys as [|Num keys IH]; intros Obj_ H; cbn [fold_left].
  - destruct H as [[]|H]. exact H.
  - apply IH. destruct (String.eqb_spec Num key) as [->|Hneq].
    + right. unfold f. rewrite Ht, Hc, Hne. apply objGet_objSet_same.
    + destruct H as [[E|H]|H]; [contradiction|left; assumption|right].
      unfold f. destruct (objGet level Num) as [t0|]; [|assumption].
      destruct (complete t0 && _); [|assumption].
      rewrite objGet_objSet_other; assumption.
Qed.

Lemma compositionPair_from_fst (Num i : nat) :
  map fst (compositionPair_from Num i) = rev (seq 0 (S i)).
Proof.
  induction i as [|i IH]; [reflexivity|].
  cbn [compositionPair_from map fst]. rewrite IH.
  rewrite (seq_S (S i) 0), rev_app_distr. reflexivity.
Qed.

Lemma compositionPair_from_In (Num i a b : nat) :
  In (a, b) (compositionPair_from Num i) <-> (a <= i)%nat /\ b = (Num - a)%nat.
Proof.
  induction i as [|i IH]; cbn [compositionPair_from In].
  - split.
    + intros [[= <- <-]|[]]. lia.
    + intros [Ha ->]. left. f_equal; lia.
  - rewrite IH. split.
    + intros [[= <- <-]|[Ha ->]]; lia.
    + intros [Ha ->]. destruct (Nat.eq_dec a (S i)) as [->|]; [left; reflexivity|].
      right. lia.
Qed.

(** X18.  [compositionPair(Num)] lists exactly the pairs of naturals with
    sum [Num], each once, by decreasing first component from [Num] down
    to 0: there are [Num + 1] of them. *)
Theorem compositionPair_characterized (Num : nat) :
  (forall i j, In (i, j) (compositionPair Num) <-> (i + j = Num)%nat) /\
  map fst (compositionPair Num) = rev (seq 0 (S Num)) /\
  Datatypes.length (compositionPair Num) = S Num.
Proof.
  split; [|split].
  - intros i j. unfold compositionPair. rewrite compositionPair_from_In. lia.
  - apply compositionPair_from_fst.
  - rewrite <- (length_map fst). unfold compositionPair.
    rewrite compositionPair_from_fst, length_rev, length_seq. reflexivity.
Qed.

(** ** The search of version 2 *)

Lemma numeralValue_float : numeralValue "float"%string = None.
Proof. reflexivity. Qed.

Section Version2.

Variable Q : Term -> Prop.
Hypothesis Q_atom : forall v, In v atoms -> Q (Atom2 v).
Hypothesis Q_join : forall L R op,
  Q L -> Q R -> end_ L <> start R -> In op OperationList_version2 ->
  (operationCount R <= operationCount L)%nat ->
  (exists e, evaluate (Expression2 L op R) = Value e) ->
  Q (Expression2 L op R).

Lemma attempt_version2_invariant (known0 : list string) (k : nat)
      (L R : Term) (op : Operation) (T T' : Obj (list Term)) :
  Q L -> Q R -> In op OperationList_version2 ->
  (operationCount R <= operationCount L)%nat ->
  S (operationCount L + operationCount R) = k ->
  (forall key, In key known0 -> numeralValue key <> None) ->
  levelInv_version2 Q k known0 T ->
  attempt_version2 known0 L R op T = Some T' ->
  levelInv_version2 Q k known0 T'.
Proof.
  intros HL HR Hop Hle Hcount Hnum (HK & HQ & HU). unfold attempt_version2.
  destruct (Z.eqb_spec (end_ L) (start R)) as [|Hadj]; cbn [negb];
    [intros [= <-]; repeat split; assumption|].
  cbv zeta.
  destruct (evaluate (Expression2 L op R)) as [e| | |] eqn:Hev;
    try (intros [= <-]; repeat split; assumption).
  assert (Hnew : Q (Expression2 L op R)) by (apply Q_join; eauto).
  destruct (display e) as [|d] eqn:Hd.
  - destruct (objGet T "float"%string) as [float|] eqn:Hf; [|discriminate].
    intros [= <-]. split; [|split].
    + intros key l t. rewrite objGet_objSet.
      destruct (String.eqb_spec "float"%string key) as [<-|_]; [|apply HK].
      intros [= <-] Hin. apply in_app_or in Hin.
      destruct Hin as [Hin|[<-|[]]]; [apply (HK _ _ _ Hf Hin)|].
      exists e. auto.
    + intros key l t. rewrite objGet_objSet.
      destruct (String.eqb_spec "float"%string key) as [<-|_]; [|apply HQ].
      intros [= <-] Hin. apply in_app_or in Hin.
      destruct Hin as [Hin|[<-|[]]]; [apply (HQ _ _ _ Hf Hin)|assumption].
    + intros key Hin. rewrite objGet_objSet.
      destruct (String.eqb_spec "float"%string key) as [<-|_]; [|apply HU, Hin].
      exfalso. apply (Hnum _ Hin). reflexivity.
  - destruct (includes known0 d) eqn:Hinc; cbn [negb];
      [intros [= <-]; repeat split; assumption|].
    apply includes_false in Hinc.
    set (T1 := match objGet T d with Some _ => T | None => objSet d [] T end).
    assert (HT1 : exists l, objGet T1 d = Some l /\
                            (forall t, In t l -> exists l0, objGet T d = Some l0 /\ In t l0) /\
                            forall key, key <> d -> objGet T1 key = objGet T key).
    { unfold T1. destruct (objGet T d) as [l0|] eqn:E.
      - exists l0. rewrite E. split; [reflexivity|]. split; [eauto|reflexivity].
      - exists []. rewrite objGet_objSet_same. split; [reflexivity|].
        split; [intros t []|]. intros key Hk. apply objGet_objSet_other. congruence. }
    destruct HT1 as (l & Hl & Hold & Hother). rewrite Hl.
    intros [= <-]. split; [|split].
    + intros key l' t. rewrite objGet_objSet.
      destruct (String.eqb_spec d key) as [<-|Hk].
      * intros [= <-] Hin. apply in_app_or in Hin.
        destruct Hin as [Hin|[<-|[]]].
        -- destruct (Hold _ Hin) as (l0 & Hl0 & Hin0). apply (HK _ _ _ Hl0 Hin0).
        -- exists e. auto.
      * rewrite Hother by congruence. apply HK.
    + intros key l' t. rewrite objGet_objSet.
      destruct (String.eqb_spec d key) as [<-|Hk].
      * intros [= <-] Hin. apply in_app_or in Hin.
        destruct Hin as [Hin|[<-|[]]]; [|assumption].
        destruct (Hold _ Hin) as (l0 & Hl0 & Hin0). apply (HQ _ _ _ Hl0 Hin0).
      * rewrite Hother by congruence. apply HQ.
    + intros key Hin. rewrite objGet_objSet.
      destruct (String.eqb_spec d key) as [<-|Hk]; [contradiction|].
      rewrite Hother by congruence. apply HU, Hin.
Qed.

Lemma compose_version2_invariant (known0 : list string) (k : nat)
      (List : list (Obj (list Term))) (T T' : Obj (list Term)) (c : nat * nat) :
  (forall i lvl, nth_error List i = Some lvl -> keyed2 i lvl /\ allTerms2 Q lvl) ->
  S (fst c + snd c) = k ->
  (forall key, In key known0 -> numeralValue key <> None) ->
  levelInv_version2 Q k known0 T ->
  compose_version2 known0 List T c = Some T' ->
  levelInv_version2 Q k known0 T'.
Proof.
  intros Hlv Hsum Hnum Hinv. unfold compose_version2.
  destruct (nth_error List (fst c)) as [LeftNumbers|] eqn:EL; [|discriminate].
  destruct (nth_error List (snd c)) as [RightNumbers|] eqn:ER; [|discriminate].
  destruct (Hlv _ _ EL) as [HkL HqL]. destruct (Hlv _ _ ER) as [HkR HqR].
  set (P := levelInv_version2 Q k known0).
  apply (foldM_preserves P); [|exact Hinv].
  intros s LeftExpressions s' _ Hs.
  apply (foldM_preserves P); [|exact Hs].
  intros s1 RightExpressions s1' _ Hs1.
  destruct (fst c <? snd c)%nat eqn:Hig.
  - cbn. intros [= <-]. assumption.
  - apply Nat.ltb_ge in Hig.
    apply (operationLoop_preserves P); [|exact Hs1].
    intros op s2 s2' Hop Hs2.
    destruct (objGet LeftNumbers LeftExpressions) as [lefts|] eqn:HLe; [|discriminate].
    destruct (objGet RightNumbers RightExpressions) as [rights|] eqn:HRe; [|discriminate].
    apply (foldM_preserves P); [|exact Hs2].
    intros s3 L s3' HinL Hs3.
    apply (foldM_preserves P); [|exact Hs3].
    intros s4 R s4' HinR Hs4.
    destruct (HkL _ _ _ HLe HinL) as (a & _ & Hca & _).
    destruct (HkR _ _ _ HRe HinR) as (b & _ & Hcb & _).
    apply (attempt_version2_invariant known0 k L R op s4 s4');
      try assumption.
    + apply (HqL _ _ _ HLe HinL).
    + apply (HqR _ _ _ HRe HinR).
    + rewrite Hca, Hcb. assumption.
    + rewrite Hca, Hcb. assumption.
Qed.

Lemma settle_version2_spec (newList : Obj (list Term)) (keys : list string) :
  forall known,
    let known' := fold_left (settle_version2 newList) keys known in
    incl known known' /\
    (forall x, In x known' ->
       In x known \/
       exists l, objGet newList x = Some l /\ inRange x = true /\
                 exists t, In t l /\ complete t = true) /\
    (forall x l t, In x keys -> objGet newList x = Some l -> In t l ->
       complete t = true -> inRange x = true -> In x known').
Proof.
  induction keys as [|New keys IH]; intros known; cbn [fold_left].
  - split; [apply incl_refl|]. split; [auto|]. intros x l t [].
  - destruct (IH (settle_version2 newList known New)) as (Hi & Hfrom & Hto).
    cbv zeta in *.
    set (known1 := settle_version2 newList known New) in *.
    assert (H1 : incl known known1 /\
                 (forall x, In x known1 -> In x known \/
                    (x = New /\ exists l, objGet newList x = Some l /\ inRange x = true /\
                                exists t, In t l /\ complete t = true)) /\
                 (forall l t, objGet newList New = Some l -> In t l ->
                    complete t = true -> inRange New = true -> In New known1)).
    { unfold known1, settle_version2.
      destruct (objGet newList New) as [l|] eqn:El;
        [|split; [apply incl_refl|]; split; [auto|]; intros; discriminate].
      destruct (inRange New) eqn:Hr; cbn [andb].
      - destruct (filter complete l) as [|t0 l0] eqn:Ef; cbn.
        + split; [apply incl_refl|]. split; [auto|].
          intros l' t [= <-] Hin Hc _.
          assert (In t (filter complete l)) by (apply filter_In; auto).
          rewrite Ef in H. contradiction.
        + split; [intros x Hx; apply in_or_app; auto|]. split.
          * intros x Hx. apply in_app_or in Hx. destruct Hx as [Hx|[<-|[]]]; [auto|].
            right. split; [reflexivity|]. exists l. split; [assumption|].
            split; [assumption|]. exists t0.
            assert (In t0 (filter complete l)) by (rewrite Ef; left; reflexivity).
            apply filter_In in H. exact H.
          * intros. apply in_or_app. right. left. reflexivity.
      - split; [apply incl_refl|]. split; [auto|]. intros; discriminate. }
    destruct H1 as (Hi1 & Hfrom1 & Hto1).
    split; [intros x Hx; apply Hi, Hi1, Hx|]. split.
    + intros x Hx. destruct (Hfrom x Hx) as [H|H]; [|auto].
      destruct (Hfrom1 x H) as [H'|[-> H']]; auto.
    + intros x l t [<-|Hin] Hg Ht Hc Hr.
      * apply Hi. apply (Hto1 l t Hg Ht Hc Hr).
      * apply (Hto x l t Hin Hg Ht Hc Hr).
Qed.

Lemma level_version2_invariant (ops : nat) (List : list (Obj (list Term)))
      (known : list string) (st' : list (Obj (list Term)) * list string) :
  (1 <= ops)%nat -> Datatypes.length List = ops ->
  searchInv_version2 Q List known ->
  level_version2 ops (List, known) = Some st' ->
  searchInv_version2 Q (fst st') (snd st') /\
  Datatypes.length (fst st') = S ops.
Proof.
  intros Hops Hlen (Hlv & Hnum & HA & HB & HC). unfold level_version2. cbn [fst snd].
  destruct (foldM (compose_version2 known List) (compositionPair (ops - 1))
              [("float"%string, [])]) as [T|] eqn:Hfold; [|discriminate].
  intros [= <-]. cbn [fst snd].
  assert (HT : levelInv_version2 Q ops known T).
  { apply (foldM_preserves (levelInv_version2 Q ops known)
             (compose_version2 known List) (compositionPair (ops - 1)))
      with (s := [("float"%string, @nil Term)]); [| |exact Hfold].
    - intros s c s' Hc Hs. apply compose_version2_invariant; try assumption.
      apply compositionPair_sum in Hc. lia.
    - split; [|split].
      + intros key l t. cbn [objGet].
        destruct (String.eqb "float" key); [|intros H; discriminate H].
        intros [= <-] [].
      + intros key l t. cbn [objGet].
        destruct (String.eqb "float" key); [|intros H; discriminate H].
        intros [= <-] [].
      + intros key Hin. cbn [objGet].
        destruct (String.eqb_spec "float"%string key) as [<-|]; [|reflexivity].
        exfalso. apply (Hnum _ Hin). reflexivity. }
  destruct HT as (HK & HQT & HU).
  destruct (settle_version2_spec T (objKeys T) known) as (Hi & Hfrom & Hto).
  cbv zeta in *. set (known' := fold_left (settle_version2 T) (objKeys T) known) in *.
  assert (Hnth : forall i lvl, nth_error (List ++ [T]) i = Some lvl ->
                   (i < ops /\ nth_error List i = Some lvl)%nat \/ (i = ops /\ lvl = T)).
  { intros i lvl Hi'.
    destruct (Nat.lt_ge_cases i (Datatypes.length List)) as [Hlt|Hge].
    - rewrite nth_error_app1 in Hi' by assumption. left. split; [lia|assumption].
    - rewrite nth_error_app2 in Hi' by assumption.
      destruct (i - Datatypes.length List)%nat as [|n] eqn:En; [|destruct n; discriminate].
      cbn in Hi'. injection Hi' as <-. right. split; [lia|reflexivity]. }
  split; [|rewrite length_app; cbn; lia].
  split; [|split; [|split; [|split]]].
  - intros i lvl Hi'. destruct (Hnth i lvl Hi') as [[_ H]|[-> ->]]; [apply Hlv, H|auto].
  - intros key Hin. destruct (Hfrom key Hin) as [H|(l & _ & Hr & _)]; [apply Hnum, H|].
    unfold inRange in Hr. destruct (numeralValue key); [discriminate|discriminate Hr].
  - intros i lvl key l t Hi' Hg Ht Hc Hr.
    destruct (Hnth i lvl Hi') as [[_ H]|[-> ->]].
    + apply Hi. apply (HA i lvl key l t H Hg Ht Hc Hr).
    + apply (Hto key l t (objGet_key_In _ _ _ Hg) Hg Ht Hc Hr).
  - intros i j li lj key l t Hij Hi' Hj' Hg Ht Hc Hr.
    destruct (Hnth j lj Hj') as [[Hj Hj'']|[-> ->]].
    + destruct (Hnth i li Hi') as [[_ Hi'']|[-> _]]; [|lia].
      apply (HB i j li lj key l t Hij Hi'' Hj'' Hg Ht Hc Hr).
    + destruct (Hnth i li Hi') as [[_ Hi'']|[-> _]]; [|lia].
      apply HU. apply (HA i li key l t Hi'' Hg Ht Hc Hr).
  - intros key Hin. destruct (Hfrom key Hin) as [H|(l & Hg & Hr & t & Ht & Hc)].
    + destruct (HC key H) as [H'|(i & lvl & l & t & V & Hi' & H')]; [auto|].
      right. exists i, lvl, l, t, V. split; [|exact H'].
      rewrite nth_error_app1; [assumption|]. apply nth_error_Some. congruence.
    + right. destruct (HK key l t Hg Ht) as (e & Hev & _ & [[-> _]|Hd]);
        [discriminate Hr|].
      destruct (display_integer e key Hd) as [He Hkey].
      exists ops, T, l, t, (num e).
      split; [rewrite nth_error_app2 by lia;
              replace (ops - Datatypes.length List)%nat with O by lia; reflexivity|].
      split; [assumption|]. split; [assumption|]. split; [assumption|].
      split; [congruence|]. split; [assumption|].
      unfold inRange in Hr. rewrite Hkey, numeralValue_displayInt in Hr. lia.
Qed.

Lemma levels_from_version2_invariant (remaining : nat) :
  forall ops List known st',
    (1 <= ops)%nat -> Datatypes.length List = ops ->
    searchInv_version2 Q List known ->
    levels_from_version2 remaining ops (List, known) = Some st' ->
    searchInv_version2 Q (fst st') (snd st').
Proof.
  induction remaining as [|remaining IH]; intros ops List known st' Hops Hlen Hinv.
  - cbn. intros [= <-]. assumption.
  - cbn [levels_from_version2].
    destruct (level_version2 ops (List, known)) as [[List1 known1]|] eqn:Hlev;
      [|discriminate].
    destruct (level_version2_invariant ops List known _ Hops Hlen Hinv Hlev)
      as [Hinv1 Hlen1].
    apply (IH (S ops)); [lia|exact Hlen1|exact Hinv1].
Qed.

Lemma levels_version2_invariant (N : nat) (List : list (Obj (list Term)))
      (known : list string) :
  levels_version2 N = Some (List, known) -> searchInv_version2 Q List known.
Proof.
  intros Hrun.
  apply (levels_from_version2_invariant N 1 List0_version2 knownNumbers0 (List, known));
    [lia|reflexivity| |exact Hrun].
  assert (H0 : forall i lvl key l t,
             nth_error List0_version2 i = Some lvl -> objGet lvl key = Some l ->
             In t l -> exists v, In v atoms /\ t = Atom2 v /\ key = displayInt v /\ i = O).
  { intros i lvl key l t Hi Hg Ht.
    destruct i as [|i]; [|destruct i; discriminate].
    cbn in Hi. injection Hi as <-. apply objGet_In in Hg. cbn in Hg.
    repeat (destruct Hg as [[= <- <-]|Hg];
            [destruct Ht as [<-|[]]; eexists; split; [|split; [reflexivity|split; reflexivity]];
             cbn; tauto|]).
    contradiction. }
  split; [|split; [|split; [|split]]].
  - intros i lvl Hi. split.
    + intros key l t Hg Ht.
      destruct (H0 i lvl key l t Hi Hg Ht) as (v & _ & -> & -> & ->).
      exists (newExact v). split; [reflexivity|]. split; [reflexivity|].
      right. reflexivity.
    + intros key l t Hg Ht.
      destruct (H0 i lvl key l t Hi Hg Ht) as (v & Hv & -> & _). apply Q_atom, Hv.
  - intros key [<-|[<-|[]]]; discriminate.
  - intros i lvl key l t Hi Hg Ht Hc.
    destruct (H0 i lvl key l t Hi Hg Ht) as (v & _ & -> & _). discriminate.
  - intros i j li lj key l t Hij Hi Hj.
    assert (j < Datatypes.length List0_version2)%nat by (apply nth_error_Some; congruence).
    cbn in H. lia.
  - intros key Hin. left. assumption.
Qed.

End Version2.




Lemma levels_from_version2_known_grows (remaining : nat) :
  forall ops st st' key,
    In key (snd st) ->
    levels_from_version2 remaining ops st = Some st' -> In key (snd st').
Proof.
  induction remaining as [|remaining IH]; intros ops st st' key Hin;
    cbn [levels_from_version2].
  - intros [= <-]. assumption.
  - destruct (level_version2 ops st) as [st1|] eqn:E; [|discriminate].
    apply IH. unfold level_version2 in E.
    destruct (foldM _ _ _) as [T|]; [|discriminate].
    injection E as <-. cbn [snd].
    apply (proj1 (settle_version2_spec T (objKeys T) (snd st))), Hin.
Qed.

(** X20.  When the loop over the levels of [getExpression_version2] is
    left, [knownNumbers] holds exactly 69, -69 and the renderings of the
    integers strictly between -10000 and 10000 for which some level lists
    a complete expression. *)
Theorem knownNumbers_version2_characterized (N : nat)
        (List : list (Obj (list Term))) (known : list string) :
  levels_version2 N = Some (List, known) ->
  forall key, In key known <-> In key knownNumbers0 \/ settledBy2 List key.
Proof.
  intros Hrun key.
  destruct (levels_version2_invariant (fun _ => True) (fun _ _ => I)
              (fun _ _ _ _ _ _ _ _ _ => I) N List known Hrun)
    as (_ & _ & HA & _ & HC).
  split; [apply HC|].
  intros [Hin|(i & lvl & l & t & V & Hi & Hg & Ht & Hc & _ & -> & Hr)].
  - apply (levels_from_version2_known_grows N 1%nat
             (List0_version2, knownNumbers0) (List, known) key Hin Hrun).
  - apply (HA i lvl (displayInt V) l t Hi Hg Ht Hc).
    unfold inRange. rewrite numeralValue_displayInt.
    apply andb_true_intro. split; apply Z.ltb_lt; lia.
Qed.

(** With budget 1. *)
Lemma knownNumbers_version2_characterized_witness :
  exists List known,
    levels_version2 1 = Some (List, known) /\
    forall key, In key known <-> In key knownNumbers0 \/ settledBy2 List key.
Proof.
  destruct (levels_version2 1) as [[List known]|] eqn:E;
    [|vm_compute in E; discriminate E].
  exists List, known. split; [reflexivity|].
  apply (knownNumbers_version2_characterized 1 List known E).
Defined.


